(** * shadeplanner: the frustum / cylinder engine of [frust_ngon.py]

    A shallow embedding of the numeric core of [frust_ngon.py]: the two ring
    generators [get_face_vertices] and [get_face_midpoints], [get_inradius],
    and the computational part of [update_plot] (apothems, intersection
    height, cut lengths, the feedback title, the grids of the cylinder
    surface).

    Modelling conventions.
    - numpy's float64 values are modelled by the real numbers [R] of the
      Standard Library: [np.cos], [np.sin], [np.tan], [np.sqrt], [abs] and
      [np.clip] become [cos], [sin], [tan], [sqrt], [Rabs] and min/max.
      Rounding is therefore not part of the model; every statement below is
      a statement about the exact arithmetic the program approximates.
    - [sides] is a Python [int], modelled by [Z].
    - Python exceptions are modelled by an error monad over [PyExn]: the
      division [180 / sides] raises [ZeroDivisionError], [np.linspace] raises
      [ValueError] on a negative sample count, indexing past the end of an
      array raises [IndexError].
    - The matplotlib calls only consume the values computed here; what the
      program shows is collected in the record [plot]. The [:.2f] and [:.1f]
      formatting of the title is not modelled: the title carries the numbers
      themselves. *)

From Stdlib Require Import Reals Lra Lia ZArith List Bool.
Import ListNotations.

Local Open Scope R_scope.

(** ** Python exceptions as an error monad *)

Inductive PyExn : Type :=
| ZeroDivisionError
| ValueError
| IndexError.

Definition result (A : Type) : Type := (PyExn + A)%type.

Definition ret {A : Type} (a : A) : result A := inr a.

Definition raise {A : Type} (e : PyExn) : result A := inl e.

Definition bind {A B : Type} (m : result A) (f : A -> result B) : result B :=
  match m with
  | inl e => inl e
  | inr a => f a
  end.

Declare Scope py_scope.
Delimit Scope py_scope with py.
Notation "x <- m ;; k" := (bind m (fun x => k))
  (at level 61, m at next level, right associativity) : py_scope.
Local Open Scope py_scope.

(** [for x in xs: ...] collecting one value per iteration; the first exception
    stops the loop. *)
Fixpoint for_each {A B : Type} (f : A -> result B) (xs : list A)
  : result (list B) :=
  match xs with
  | [] => ret []
  | x :: xs' =>
      y <- f x ;;
      ys <- for_each f xs' ;;
      ret (y :: ys)
  end.

(** ** Python and numpy primitives *)

(** [a / b] with [b] a Python [int]. *)
Definition truediv (a : R) (b : Z) : result R :=
  if (b =? 0)%Z then raise ZeroDivisionError else ret (a / IZR b).

(** [np.radians]. *)
Definition radians (deg : R) : R := deg * (PI / 180).

(** [np.clip(x, lo, hi)], that is [minimum(maximum(x, lo), hi)]. *)
Definition clip (x lo hi : R) : R := Rmin (Rmax x lo) hi.

(** [a[i]] for an in-range or too large index [i >= 0]. *)
Definition getitem {A : Type} (a : list A) (i : nat) : result A :=
  match nth_error a i with
  | Some x => ret x
  | None => raise IndexError
  end.

(** [range(n)]. *)
Definition range (n : Z) : list nat := seq 0 (Z.to_nat n).

(** [np.linspace(start, stop, num)] with the default [endpoint=True]:
    [num] samples [i * step + start], the last one overwritten by [stop]. *)
Definition linspace (start stop : R) (num : Z) : result (list R) :=
  if (num <? 0)%Z then raise ValueError
  else
    let div := (num - 1)%Z in
    let delta := stop - start in
    let step := if (0 <? div)%Z then delta / IZR div else delta in
    let y := map (fun i => INR i * step + start) (range num) in
    ret (if (1 <? num)%Z then removelast y ++ [stop] else y).

(** ** Points *)

(** One row [[x, y, z]] of the arrays the generators return. *)
Record point : Type := mkPoint { px : R; py : R; pz : R }.

(** Euclidean distance between two points. *)
Definition dist (p q : point) : R :=
  sqrt ((px p - px q) ^ 2 + (py p - py q) ^ 2 + (pz p - pz q) ^ 2).

(** ** The helper functions of [frust_ngon.py] *)

(** [f_h = 5.0]: the total height of the shade. *)
Definition f_h : R := 5.

(** [np.linspace(0, 2 * np.pi, sides+1)[:-1]], shared by both generators. *)
Definition ring_angles (sides : Z) : result (list R) :=
  ls <- linspace 0 (2 * PI) (sides + 1) ;;
  ret (removelast ls).

Definition get_face_vertices (radius z : R) (sides : Z) : result (list point) :=
  angles <- ring_angles sides ;;
  ret (map (fun a => mkPoint (radius * cos a) (radius * sin a) z) angles).

Definition get_face_midpoints (inradius z : R) (sides : Z)
  : result (list point) :=
  angles0 <- ring_angles sides ;;
  let angles := map (fun a => a + PI / 5) angles0 in
  ret (map (fun a => mkPoint (inradius * cos a) (inradius * sin a) z) angles).

Definition get_inradius (s_len : R) (sides : Z) : result R :=
  d <- truediv 180 sides ;;
  ret ((s_len / 2) / tan (radians d)).

(** ** [update_plot] *)

(** The title set by [ax.set_title]. *)
Inductive title : Type :=
| Covered (z_int v_top_len v_bot_len m_len : R)
| NoSideIntersection.

(** What one call of [update_plot] hands to the axes: the faces of the
    frustum, the heights of the dynamic part of the cylinder, the scattered
    intersection points (when there are any) and the title. *)
Record plot : Type := mkPlot {
  faces : list (list point);
  z_dynamic : list R;
  scatter : option (list point);
  feedback : title
}.

(** [COS36 = np.cos(np.radians(180 / sides))]. *)
Definition COS36 (sides : Z) : result R :=
  d <- truediv 180 sides ;;
  ret (cos (radians d)).

(** The branch that assigns [z_int] from the two apothems. *)
Definition solve_z (r_bot r_top c_r : R) : R :=
  if Rlt_dec 1e-5 (Rabs (r_top - r_bot))
  then (c_r - r_bot) * (f_h / (r_top - r_bot))
  else -1.

(** Lines 59 to 64: the value of the local variable [z_int]. *)
Definition z_int (f_bot_R f_top_R c_r : R) (sides : Z) : result R :=
  k <- COS36 sides ;;
  let r_bot := f_bot_R * k in
  let r_top := f_top_R * k in
  ret (solve_z r_bot r_top c_r).

(** [z_vis = np.clip(z_int, 0, f_h)]. *)
Definition z_vis (z : R) : R := clip z 0 f_h.

(** The test [0 <= z_int <= f_h]. *)
Definition in_shade (z : R) : bool :=
  if Rle_dec 0 z then (if Rle_dec z f_h then true else false) else false.

(** [sqrt((v[0][0] - v[1][0]) ** 2 + (v[0][1] - v[1][1]) ** 2)]. *)
Definition edge_len (v : list point) : result R :=
  p0 <- getitem v 0 ;;
  p1 <- getitem v 1 ;;
  ret (sqrt ((px p0 - px p1) ^ 2 + (py p0 - py p1) ^ 2)).

(** The side faces appended in the loop over [range(sides)]. *)
Definition side_faces (v_bot v_top : list point) (sides : Z)
  : result (list (list point)) :=
  for_each (fun i =>
    let j := ((i + 1) mod Z.to_nat sides)%nat in
    a <- getitem v_bot i ;;
    b <- getitem v_bot j ;;
    c <- getitem v_top j ;;
    d <- getitem v_top i ;;
    ret [a; b; c; d]) (range sides).

Definition update_plot (f_bot_R f_top_R c_r : R) (sides : Z) : result plot :=
  z <- z_int f_bot_R f_top_R c_r sides ;;
  let zv := z_vis z in
  v_bot <- get_face_vertices f_bot_R 0 sides ;;
  v_top <- get_face_vertices f_top_R f_h sides ;;
  sf <- side_faces v_bot v_top sides ;;
  let fcs := [v_bot; v_top] ++ sf in
  v_bot_len <- edge_len v_bot ;;
  v_top_len <- edge_len v_top ;;
  r_t <- get_inradius v_top_len sides ;;
  m_top <- get_face_midpoints r_t f_h sides ;;
  r_b <- get_inradius v_bot_len sides ;;
  m_bot <- get_face_midpoints r_b 0 sides ;;
  mt0 <- getitem m_top 0 ;;
  mb0 <- getitem m_bot 0 ;;
  let m_len := dist mt0 mb0 in
  zd <- linspace 0 (if Rlt_dec 0 z then zv else 0.01) 20 ;;
  if in_shade z then
    pts <- get_face_midpoints c_r z sides ;;
    ret (mkPlot fcs zd (Some pts) (Covered z v_top_len v_bot_len m_len))
  else
    ret (mkPlot fcs zd None NoSideIntersection).

(** ** Closed forms used in the statements *)

(** The angles of a ring: [i * (2 * pi / sides)] for [i = 0 .. sides - 1]. *)
Definition ring_angle (sides : Z) (i : nat) : R :=
  INR i * (2 * PI / IZR sides).

(** The first edge of a ring, as [edge_len] measures it. *)
Definition first_edge (radius : R) (sides : Z) : R :=
  sqrt ((radius * cos (ring_angle sides 0) - radius * cos (ring_angle sides 1)) ^ 2
        + (radius * sin (ring_angle sides 0) - radius * sin (ring_angle sides 1)) ^ 2).

(** The samples of [np.linspace(start, stop, num)] for [num >= 2]. *)
Definition linspace_samples (start stop : R) (num : Z) : list R :=
  map (fun i => INR i * ((stop - start) / IZR (num - 1)) + start)
      (seq 0 (Z.to_nat num - 1)) ++ [stop].

(** The middle of the segment from [p] to [q]. *)
Definition midpoint (p q : point) : point :=
  mkPoint ((px p + px q) / 2) ((py p + py q) / 2) ((pz p + pz q) / 2).

(** ** The cylinder drawn by [update_plot] (lines 88 to 101) *)

(** Elementwise operations on arrays of equal shape. *)
Definition zip_with {A B C : Type} (f : A -> B -> C)
  (a : list A) (b : list B) : list C :=
  map (fun xy => f (fst xy) (snd xy)) (combine a b).

Definition mul2d (a b : list (list R)) : list (list R) :=
  zip_with (zip_with Rmult) a b.

Definition map2d (f : R -> R) (a : list (list R)) : list (list R) :=
  map (map f) a.

(** [np.meshgrid(x, y)]: two arrays with one row per element of [y] and one
    column per element of [x]. *)
Definition meshgrid (x y : list R) : list (list R) * list (list R) :=
  (map (fun _ => x) y, map (fun yi => map (fun _ => yi) x) y).

(** [np.tile(r, (reps, 1)).T]: row [i] is [reps] copies of [r[i]]. *)
Definition tile_T (r : list R) (reps : nat) : list (list R) :=
  map (fun ri => repeat ri reps) r.

(** The three coordinate grids handed to [ax.plot_surface], from the
    cylinder radius and the value of [z_int]. *)
Definition cylinder_surface (c_r z : R)
  : result (list (list R) * list (list R) * list (list R)) :=
  z_fixed <- linspace (-2) 0 10 ;;
  z_dyn <- linspace 0 (if Rlt_dec 0 z then z_vis z else 0.01) 20 ;;
  let z_total := z_fixed ++ z_dyn in
  let r_total := repeat 1 10 ++ repeat c_r 20 in
  theta <- linspace 0 (2 * PI) 40 ;;
  let TZ := meshgrid theta z_total in
  let R_grid := tile_T r_total 40 in
  ret (mul2d R_grid (map2d cos (fst TZ)),
       mul2d R_grid (map2d sin (fst TZ)),
       snd TZ).

(** [a[i][j]]. *)
Definition at2 (a : list (list R)) (i j : nat) : option R :=
  match nth_error a i with
  | Some row => nth_error row j
  | None => None
  end.

(** ** Basic facts about the primitives *)

Lemma for_each_ok {A B : Type} (f : A -> result B) (xs : list A) :
  (forall x, In x xs -> exists y, f x = inr y) ->
  exists ys, for_each f xs = inr ys.
Proof.
  induction xs as [|x xs IH]; intros Hall; simpl.
  - exists []. reflexivity.
  - destruct (Hall x (or_introl eq_refl)) as [y Hy].
    destruct IH as [ys Hys].
    + intros x' Hin. apply Hall. right. exact Hin.
    + rewrite Hy, Hys. simpl. exists (y :: ys). reflexivity.
Qed.

Lemma IZR_pos_neq (n : Z) : (1 <= n)%Z -> IZR n <> 0.
Proof.
  intros Hn. apply not_0_IZR. lia.
Qed.

Lemma radians_180 (sides : Z) :
  sides <> 0%Z -> radians (180 / IZR sides) = PI / IZR sides.
Proof.
  intros Hs. unfold radians. field. apply not_0_IZR. exact Hs.
Qed.

Lemma truediv_ok (a : R) (b : Z) :
  b <> 0%Z -> truediv a b = inr (a / IZR b).
Proof.
  intros Hb. unfold truediv.
  destruct (Z.eqb_spec b 0) as [E|_]; [contradiction|reflexivity].
Qed.

Lemma COS36_eq (sides : Z) :
  sides <> 0%Z -> COS36 sides = inr (cos (PI / IZR sides)).
Proof.
  intros Hs. unfold COS36. rewrite truediv_ok by exact Hs.
  simpl. unfold ret. rewrite radians_180 by exact Hs. reflexivity.
Qed.

Lemma get_inradius_eq (s_len : R) (sides : Z) :
  sides <> 0%Z ->
  get_inradius s_len sides = inr ((s_len / 2) / tan (PI / IZR sides)).
Proof.
  intros Hs. unfold get_inradius. rewrite truediv_ok by exact Hs.
  simpl. unfold ret. rewrite radians_180 by exact Hs. reflexivity.
Qed.

Lemma z_int_eq (f_bot_R f_top_R c_r : R) (sides : Z) :
  sides <> 0%Z ->
  z_int f_bot_R f_top_R c_r sides =
  inr (solve_z (f_bot_R * cos (PI / IZR sides))
               (f_top_R * cos (PI / IZR sides)) c_r).
Proof.
  intros Hs. unfold z_int. rewrite COS36_eq by exact Hs. reflexivity.
Qed.

Lemma ring_angles_eq (sides : Z) :
  (1 <= sides)%Z ->
  ring_angles sides = inr (map (ring_angle sides) (range sides)).
Proof.
  intros Hs. unfold ring_angles, linspace.
  destruct (Z.ltb_spec (sides + 1) 0) as [H|_]; [lia|].
  replace (sides + 1 - 1)%Z with sides by lia.
  destruct (Z.ltb_spec 0 sides) as [_|H]; [|lia].
  destruct (Z.ltb_spec 1 (sides + 1)) as [_|H]; [|lia].
  simpl. unfold ret. f_equal. unfold range.
  replace (Z.to_nat (sides + 1)) with (S (Z.to_nat sides)) by lia.
  rewrite seq_S, map_app. simpl.
  rewrite !removelast_last.
  apply map_ext. intros i. unfold ring_angle.
  rewrite Rminus_0_r. apply Rplus_0_r.
Qed.

Lemma length_range (n : Z) : length (range n) = Z.to_nat n.
Proof. unfold range. apply length_seq. Qed.

Lemma nth_error_range (n : Z) (i : nat) :
  (i < Z.to_nat n)%nat -> nth_error (range n) i = Some i.
Proof.
  intros Hi. unfold range.
  rewrite nth_error_nth' with (d := O) by (rewrite length_seq; exact Hi).
  rewrite seq_nth by exact Hi. reflexivity.
Qed.

(** What the two generators return for a positive side count. *)
Lemma get_face_vertices_eq (radius z : R) (sides : Z) :
  (1 <= sides)%Z ->
  get_face_vertices radius z sides =
  inr (map (fun i => mkPoint (radius * cos (ring_angle sides i))
                             (radius * sin (ring_angle sides i)) z)
           (range sides)).
Proof.
  intros Hs. unfold get_face_vertices.
  rewrite ring_angles_eq by exact Hs. simpl. unfold ret.
  rewrite map_map. reflexivity.
Qed.

Lemma get_face_midpoints_eq (inradius z : R) (sides : Z) :
  (1 <= sides)%Z ->
  get_face_midpoints inradius z sides =
  inr (map (fun i => mkPoint (inradius * cos (ring_angle sides i + PI / 5))
                             (inradius * sin (ring_angle sides i + PI / 5)) z)
           (range sides)).
Proof.
  intros Hs. unfold get_face_midpoints.
  rewrite ring_angles_eq by exact Hs. simpl. unfold ret.
  rewrite !map_map. reflexivity.
Qed.

(** ** [update_plot] runs to completion for every side count from 2 on *)

Lemma range_two (n : Z) :
  (2 <= n)%Z -> exists rest, range n = 0%nat :: 1%nat :: rest.
Proof.
  intros Hn. unfold range.
  destruct (Z.to_nat n) as [|[|k]] eqn:E; try lia.
  exists (seq 2 k). reflexivity.
Qed.

Lemma side_faces_ok (f g : nat -> point) (sides : Z) :
  (1 <= sides)%Z ->
  exists sf, side_faces (map f (range sides)) (map g (range sides)) sides
             = inr sf.
Proof.
  intros Hs. unfold side_faces. apply for_each_ok.
  intros i Hi. unfold range in Hi. apply in_seq in Hi.
  assert (Hj : ((i + 1) mod Z.to_nat sides < Z.to_nat sides)%nat)
    by (apply Nat.mod_upper_bound; lia).
  assert (Hget : forall (h : nat -> point) (k : nat),
             (k < Z.to_nat sides)%nat ->
             getitem (map h (range sides)) k = inr (h k)).
  { intros h k Hk. unfold getitem.
    rewrite nth_error_map, nth_error_range by exact Hk. reflexivity. }
  rewrite !Hget by lia. simpl. eexists. reflexivity.
Qed.

Lemma linspace_20_ok (stop : R) : exists zd, linspace 0 stop 20 = inr zd.
Proof.
  unfold linspace. simpl. eexists. reflexivity.
Qed.

Lemma edge_len_ring (radius z : R) (sides : Z) :
  (2 <= sides)%Z ->
  edge_len (map (fun i => mkPoint (radius * cos (ring_angle sides i))
                                  (radius * sin (ring_angle sides i)) z)
                (range sides))
  = inr (first_edge radius sides).
Proof.
  intros Hs. destruct (range_two sides Hs) as [rest ->].
  reflexivity.
Qed.

Lemma update_plot_ok (f_bot_R f_top_R c_r : R) (sides : Z) :
  (2 <= sides)%Z ->
  let z := solve_z (f_bot_R * cos (PI / IZR sides))
                   (f_top_R * cos (PI / IZR sides)) c_r in
  exists fcs zd pts m_len,
    linspace 0 (if Rlt_dec 0 z then z_vis z else 0.01) 20 = inr zd /\
    get_face_midpoints c_r z sides = inr pts /\
    update_plot f_bot_R f_top_R c_r sides =
    inr (if in_shade z
         then mkPlot fcs zd (Some pts)
                (Covered z (first_edge f_top_R sides)
                           (first_edge f_bot_R sides) m_len)
         else mkPlot fcs zd None NoSideIntersection).
Proof.
  intros Hs z.
  assert (Hs0 : sides <> 0%Z) by lia.
  assert (Hs1 : (1 <= sides)%Z) by lia.
  unfold update_plot.
  rewrite z_int_eq by exact Hs0. fold z.
  rewrite !get_face_vertices_eq by exact Hs1.
  cbn [bind].
  destruct (side_faces_ok
              (fun i => mkPoint (f_bot_R * cos (ring_angle sides i))
                                (f_bot_R * sin (ring_angle sides i)) 0)
              (fun i => mkPoint (f_top_R * cos (ring_angle sides i))
                                (f_top_R * sin (ring_angle sides i)) f_h)
              sides Hs1) as [sf Hsf].
  rewrite Hsf. cbn [bind].
  rewrite !edge_len_ring by exact Hs. cbn [bind].
  rewrite !get_inradius_eq by exact Hs0. cbn [bind].
  rewrite !get_face_midpoints_eq by exact Hs1. cbn [bind].
  destruct (range_two sides Hs) as [rest Hrest].
  rewrite Hrest. cbn [map getitem nth_error bind ret].
  destruct (linspace_20_ok (if Rlt_dec 0 z then z_vis z else 0.01))
    as [zd Hzd].
  rewrite Hzd. cbn [bind].
  eexists _, zd, _, _.
  split; [reflexivity|]. split; [reflexivity|].
  destruct (in_shade z); reflexivity.
Qed.

(** ** Trigonometric facts the claims need *)

Lemma PI_over_bounds (n : Z) :
  (2 <= n)%Z -> 0 < PI / IZR n <= PI / 2.
Proof.
  intros Hn.
  assert (H2 : 2 <= IZR n) by (apply IZR_le in Hn; exact Hn).
  pose proof PI_RGT_0 as Hpi.
  split.
  - apply Rdiv_lt_0_compat; lra.
  - unfold Rdiv. apply Rmult_le_compat_l; [lra|].
    apply Rinv_le_contravar; lra.
Qed.

Lemma PI_over_bounds3 (n : Z) :
  (3 <= n)%Z -> 0 < PI / IZR n <= PI / 3.
Proof.
  intros Hn.
  assert (H3 : 3 <= IZR n) by (apply IZR_le in Hn; exact Hn).
  pose proof PI_RGT_0 as Hpi.
  split.
  - apply Rdiv_lt_0_compat; lra.
  - unfold Rdiv. apply Rmult_le_compat_l; [lra|].
    apply Rinv_le_contravar; lra.
Qed.

Lemma sin_PI_over_pos (n : Z) : (2 <= n)%Z -> 0 < sin (PI / IZR n).
Proof.
  intros Hn. pose proof (PI_over_bounds n Hn) as [H1 H2].
  pose proof PI_RGT_0 as Hpi.
  apply sin_gt_0; lra.
Qed.

Lemma cos_PI_over_pos (n : Z) : (3 <= n)%Z -> 0 < cos (PI / IZR n).
Proof.
  intros Hn. pose proof (PI_over_bounds3 n Hn) as [H1 H2].
  pose proof PI_RGT_0 as Hpi.
  apply cos_gt_0; lra.
Qed.

Lemma ring_angle_0 (sides : Z) : ring_angle sides 0 = 0.
Proof. unfold ring_angle. simpl. ring. Qed.

Lemma ring_angle_1 (sides : Z) : ring_angle sides 1 = 2 * (PI / IZR sides).
Proof. unfold ring_angle. simpl. unfold Rdiv. ring. Qed.

(** The edge of a regular polygon of circumradius [radius]:
    [2 * radius * sin (pi / n)]. *)
Lemma first_edge_eq (radius : R) (sides : Z) :
  (2 <= sides)%Z -> 0 <= radius ->
  first_edge radius sides = 2 * radius * sin (PI / IZR sides).
Proof.
  intros Hs Hr. unfold first_edge.
  rewrite ring_angle_0, ring_angle_1, cos_0, sin_0.
  rewrite cos_2a_sin, sin_2a.
  set (a := PI / IZR sides).
  pose proof (sin_PI_over_pos sides Hs) as Hsin. fold a in Hsin.
  pose proof (sin2_cos2 a) as Hsc. unfold Rsqr in Hsc.
  replace ((radius * 1 - radius * (1 - 2 * sin a * sin a)) ^ 2
           + (radius * 0 - radius * (2 * sin a * cos a)) ^ 2)
    with ((2 * radius * sin a) ^ 2).
  - rewrite <- Rsqr_pow2. apply sqrt_Rsqr. nra.
  - transitivity ((2 * radius * sin a) ^ 2
                  * (sin a * sin a + cos a * cos a)).
    + rewrite Hsc. ring.
    + ring.
Qed.

(** The pentagon constant: [cos (pi / 5)] is the positive root of
    [4 c^2 - 2 c - 1]. *)
Lemma cos_PI5_root : 4 * cos (PI / 5) ^ 2 - 2 * cos (PI / 5) - 1 = 0.
Proof.
  set (a := PI / 5).
  pose proof PI_RGT_0 as Hpi.
  assert (Hc : 0 < cos a) by (apply cos_gt_0; unfold a; lra).
  assert (H3 : cos (3 * a) = - cos (2 * a)).
  { replace (3 * a) with (PI - 2 * a) by (unfold a; field).
    apply Rtrigo_facts.cos_pi_minus. }
  replace (3 * a) with (2 * a + a) in H3 by ring.
  rewrite cos_plus, sin_2a, cos_2a_cos in H3.
  pose proof (sin2_cos2 a) as Hsc. unfold Rsqr in Hsc.
  assert (Hs : sin a * sin a = 1 - cos a * cos a) by lra.
  assert (E : (cos a + 1) * (4 * cos a ^ 2 - 2 * cos a - 1) = 0).
  { replace (2 * sin a * cos a * sin a) with (2 * cos a * (sin a * sin a))
      in H3 by ring.
    rewrite Hs in H3. simpl. nra. }
  apply Rmult_integral in E. destruct E as [E|E]; [lra|exact E].
Qed.

Lemma cos_PI5_bounds : 0.80901 < cos (PI / 5) < 0.80902.
Proof.
  pose proof cos_PI5_root as Hroot.
  pose proof PI_RGT_0 as Hpi.
  assert (Hc : 0 < cos (PI / 5)) by (apply cos_gt_0; lra).
  simpl in Hroot.
  split.
  - destruct (Rlt_le_dec 0.80901 (cos (PI / 5))) as [H|H]; [exact H|].
    exfalso. nra.
  - destruct (Rlt_le_dec (cos (PI / 5)) 0.80902) as [H|H]; [exact H|].
    exfalso. nra.
Qed.

(** ** The two branches of the solve, the validity test and the clamp *)

Lemma solve_z_degenerate (r_bot r_top c_r : R) :
  Rabs (r_top - r_bot) <= 1e-5 -> solve_z r_bot r_top c_r = -1.
Proof.
  intros H. unfold solve_z.
  destruct (Rlt_dec 1e-5 (Rabs (r_top - r_bot))) as [Hlt|_]; [lra|reflexivity].
Qed.

Lemma solve_z_tapered (r_bot r_top c_r : R) :
  1e-5 < Rabs (r_top - r_bot) ->
  solve_z r_bot r_top c_r = (c_r - r_bot) * (f_h / (r_top - r_bot)).
Proof.
  intros H. unfold solve_z.
  destruct (Rlt_dec 1e-5 (Rabs (r_top - r_bot))) as [_|Hn];
    [reflexivity|contradiction].
Qed.

Lemma in_shade_true (z : R) : in_shade z = true <-> 0 <= z <= f_h.
Proof.
  unfold in_shade.
  destruct (Rle_dec 0 z) as [H0|H0]; destruct (Rle_dec z f_h) as [H1|H1];
    split; intros H; try discriminate; try reflexivity; try lra.
Qed.

Lemma in_shade_false (z : R) : in_shade z = false <-> ~ (0 <= z <= f_h).
Proof.
  unfold in_shade.
  destruct (Rle_dec 0 z) as [H0|H0]; destruct (Rle_dec z f_h) as [H1|H1];
    split; intros H; try discriminate; try reflexivity; lra.
Qed.

Lemma z_vis_bounds (z : R) : 0 <= z_vis z <= f_h.
Proof.
  unfold z_vis, clip, f_h, Rmin, Rmax.
  destruct (Rle_dec z 0); destruct (Rle_dec _ 5); lra.
Qed.

Lemma in_shade_sentinel : in_shade (-1) = false.
Proof. apply in_shade_false. lra. Qed.

(** What [update_plot] shows, read off the solved height. *)
Lemma update_plot_feedback (f_bot_R f_top_R c_r : R) (sides : Z) :
  (2 <= sides)%Z ->
  let z := solve_z (f_bot_R * cos (PI / IZR sides))
                   (f_top_R * cos (PI / IZR sides)) c_r in
  exists p,
    update_plot f_bot_R f_top_R c_r sides = inr p /\
    linspace 0 (if Rlt_dec 0 z then z_vis z else 0.01) 20
      = inr (z_dynamic p) /\
    (in_shade z = true ->
       scatter p <> None /\
       exists m_len, feedback p = Covered z (first_edge f_top_R sides)
                                            (first_edge f_bot_R sides) m_len) /\
    (in_shade z = false ->
       scatter p = None /\ feedback p = NoSideIntersection).
Proof.
  intros Hs z.
  destruct (update_plot_ok f_bot_R f_top_R c_r sides Hs)
    as (fcs & zd & pts & m_len & Hzd & _ & Hup).
  fold z in Hzd, Hup.
  eexists. split; [exact Hup|].
  destruct (in_shade z); cbn [z_dynamic scatter feedback].
  - split; [exact Hzd|]. split.
    + intros _. split; [discriminate|]. exists m_len. reflexivity.
    + discriminate.
  - split; [exact Hzd|]. split.
    + discriminate.
    + intros _. split; reflexivity.
Qed.

(** ** The ring generators *)

(** C8. For every integer [sides >= 3], every [radius > 0] and every height
    [z], [get_face_vertices] returns exactly [sides] points; point [i] is
    [(radius * cos (2 pi i / sides), radius * sin (2 pi i / sides), z)] for
    [i = 0 .. sides - 1], so the points start at angle 0 and are spaced by
    [2 pi / sides]; each lies at Euclidean distance [radius] from the axis
    point [(0, 0, z)]. *)
Theorem get_face_vertices_ring (radius z : R) (sides : Z) :
  (3 <= sides)%Z -> 0 < radius ->
  exists pts,
    get_face_vertices radius z sides = inr pts /\
    length pts = Z.to_nat sides /\
    (forall i, (i < Z.to_nat sides)%nat ->
       nth_error pts i =
       Some (mkPoint (radius * cos (2 * PI * INR i / IZR sides))
                     (radius * sin (2 * PI * INR i / IZR sides)) z)) /\
    Forall (fun p => dist p (mkPoint 0 0 z) = radius) pts.
Proof.
  intros Hs Hr.
  rewrite get_face_vertices_eq by lia.
  eexists. split; [reflexivity|].
  split; [rewrite length_map; apply length_range|].
  split.
  - intros i Hi.
    rewrite nth_error_map, nth_error_range by exact Hi. cbn [option_map].
    replace (ring_angle sides i) with (2 * PI * INR i / IZR sides);
      [reflexivity|].
    unfold ring_angle. field. apply IZR_pos_neq. lia.
  - apply Forall_forall. intros p Hp.
    apply in_map_iff in Hp. destruct Hp as (i & <- & _).
    unfold dist. cbn [px py pz].
    set (a := ring_angle sides i).
    pose proof (sin2_cos2 a) as Hsc. unfold Rsqr in Hsc.
    replace ((radius * cos a - 0) ^ 2 + (radius * sin a - 0) ^ 2 + (z - z) ^ 2)
      with (Rsqr radius).
    + apply sqrt_Rsqr. lra.
    + unfold Rsqr.
      transitivity (radius * radius * (sin a * sin a + cos a * cos a)).
      * rewrite Hsc. ring.
      * ring.
Qed.

Lemma get_face_vertices_ring_witness :
  exists pts,
    get_face_vertices 2 1 3 = inr pts /\
    length pts = Z.to_nat 3 /\
    (forall i, (i < Z.to_nat 3)%nat ->
       nth_error pts i =
       Some (mkPoint (2 * cos (2 * PI * INR i / IZR 3))
                     (2 * sin (2 * PI * INR i / IZR 3)) 1)) /\
    Forall (fun p => dist p (mkPoint 0 0 1) = 2) pts.
Proof.
  apply (get_face_vertices_ring 2 1 3); [lia|lra].
Defined.

(** The midpoint ring as the code builds it: the phase is the literal
    [pi / 5] whatever the side count. *)
Lemma get_face_midpoints_nth (inradius z : R) (sides : Z) (i : nat) :
  (1 <= sides)%Z -> (i < Z.to_nat sides)%nat ->
  exists pts,
    get_face_midpoints inradius z sides = inr pts /\
    length pts = Z.to_nat sides /\
    nth_error pts i =
    Some (mkPoint (inradius * cos (2 * PI * INR i / IZR sides + PI / 5))
                  (inradius * sin (2 * PI * INR i / IZR sides + PI / 5)) z).
Proof.
  intros Hs Hi.
  rewrite get_face_midpoints_eq by exact Hs.
  eexists. split; [reflexivity|].
  split; [rewrite length_map; apply length_range|].
  rewrite nth_error_map, nth_error_range by exact Hi. cbn [option_map].
  replace (ring_angle sides i) with (2 * PI * INR i / IZR sides);
    [reflexivity|].
  unfold ring_angle. field. apply IZR_pos_neq. exact Hs.
Qed.

Lemma cos_PI5_gt_cos_PI4 : cos (PI / 4) < cos (PI / 5).
Proof.
  pose proof PI_RGT_0 as Hpi.
  apply cos_decreasing_1; lra.
Qed.

(** C1, evaluated on a square. [get_face_midpoints 1 0 4] returns four
    points whose first one is [(cos (pi / 5), sin (pi / 5), 0)]: the phase is
    [pi / 5], not [pi / 4]. The point differs from the claimed
    [(cos (pi / 4), sin (pi / 4), 0)], and it is not on the perpendicular
    bisector of the edge from vertex 0 [(1, 0)] to vertex 1 [(0, 1)], the
    line [x = y]. *)
Theorem get_face_midpoints_square :
  exists p rest,
    get_face_midpoints 1 0 4 = inr (p :: rest) /\
    p = mkPoint (1 * cos (2 * PI * 0 / 4 + PI / 5))
                (1 * sin (2 * PI * 0 / 4 + PI / 5)) 0 /\
    p <> mkPoint (1 * cos (2 * PI * 0 / 4 + PI / 4))
                 (1 * sin (2 * PI * 0 / 4 + PI / 4)) 0 /\
    px p <> py p.
Proof.
  pose proof PI_RGT_0 as Hpi.
  pose proof cos_PI5_gt_cos_PI4 as Hlt.
  rewrite get_face_midpoints_eq by lia.
  cbn [range Z.to_nat Pos.to_nat Pos.iter_op Nat.add seq map].
  eexists _, _. split; [reflexivity|].
  rewrite ring_angle_0.
  replace (2 * PI * 0 / 4) with 0 by field.
  rewrite !Rplus_0_l, !Rmult_1_l.
  split; [reflexivity|]. split.
  - intros E. injection E as Ex _. lra.
  - cbn [px py].
    rewrite <- (cos_shift (PI / 5)).
    assert (H : cos (PI / 2 - PI / 5) < cos (PI / 5))
      by (apply cos_decreasing_1; lra).
    lra.
Qed.

(** For the pentagon the literal phase is the half step [pi / sides]. *)
Lemma get_face_midpoints_pentagon (inradius z : R) (i : nat) :
  (i < 5)%nat ->
  exists pts,
    get_face_midpoints inradius z 5 = inr pts /\
    nth_error pts i =
    Some (mkPoint (inradius * cos (2 * PI * INR i / 5 + PI / 5))
                  (inradius * sin (2 * PI * INR i / 5 + PI / 5)) z).
Proof.
  intros Hi.
  destruct (get_face_midpoints_nth inradius z 5 i) as (pts & H1 & _ & H2);
    [lia|lia|].
  exists pts. split; assumption.
Qed.

(** C6. Round trip: for [sides >= 3] and [radius > 0] the edge length
    measured on the ring returned by [get_face_vertices], fed to
    [get_inradius], gives the apothem [radius * cos (pi / sides)]. *)
Theorem inradius_round_trip (radius z : R) (sides : Z) :
  (3 <= sides)%Z -> 0 < radius ->
  exists ring s_len,
    get_face_vertices radius z sides = inr ring /\
    edge_len ring = inr s_len /\
    get_inradius s_len sides = inr (radius * cos (PI / IZR sides)).
Proof.
  intros Hs Hr.
  rewrite get_face_vertices_eq by lia.
  eexists _, _. split; [reflexivity|].
  split; [apply edge_len_ring; lia|].
  rewrite get_inradius_eq by lia.
  rewrite first_edge_eq by (lia || lra).
  pose proof (sin_PI_over_pos sides ltac:(lia)) as Hsin.
  pose proof (cos_PI_over_pos sides Hs) as Hcos.
  f_equal. unfold tan. field. split; lra.
Qed.

Lemma inradius_round_trip_witness :
  exists ring s_len,
    get_face_vertices 4 0 5 = inr ring /\
    edge_len ring = inr s_len /\
    get_inradius s_len 5 = inr (4 * cos (PI / 5)).
Proof.
  apply (inradius_round_trip 4 0 5); [lia|lra].
Defined.

(** ** The intersection solve *)

(** C3. For every [sides >= 3], all circumradii and every cylinder radius:
    when the two apothems differ by at most [1e-5], and in particular when
    [f_bot_R = f_top_R], no height is interpolated and [z_int] is the
    sentinel. *)
Theorem z_int_untapered (f_bot_R f_top_R c_r : R) (sides : Z) :
  (3 <= sides)%Z ->
  Rabs (f_top_R * cos (PI / IZR sides) - f_bot_R * cos (PI / IZR sides))
    <= 1e-5 \/ f_bot_R = f_top_R ->
  z_int f_bot_R f_top_R c_r sides = inr (-1).
Proof.
  intros Hs Hflat.
  rewrite z_int_eq by lia. f_equal.
  apply solve_z_degenerate.
  destruct Hflat as [H| ->]; [exact H|].
  rewrite Rminus_diag, Rabs_R0. lra.
Qed.

Lemma z_int_untapered_witness : z_int 4 4 2 5 = inr (-1).
Proof.
  apply (z_int_untapered 4 4 2 5); [lia|right; reflexivity].
Defined.

(** C5. For [sides >= 3] and apothems further apart than [1e-5]: a cylinder
    radius equal to the bottom apothem solves to height 0, one equal to the
    top apothem solves to height [f_h]. *)
Theorem z_int_boundary (f_bot_R f_top_R : R) (sides : Z) :
  (3 <= sides)%Z ->
  1e-5 < Rabs (f_top_R * cos (PI / IZR sides)
               - f_bot_R * cos (PI / IZR sides)) ->
  z_int f_bot_R f_top_R (f_bot_R * cos (PI / IZR sides)) sides = inr 0 /\
  z_int f_bot_R f_top_R (f_top_R * cos (PI / IZR sides)) sides = inr f_h.
Proof.
  intros Hs Htaper.
  rewrite !z_int_eq by lia.
  rewrite !solve_z_tapered by exact Htaper.
  set (r_bot := f_bot_R * cos (PI / IZR sides)) in *.
  set (r_top := f_top_R * cos (PI / IZR sides)) in *.
  assert (Hne : r_top - r_bot <> 0).
  { intros E. rewrite E, Rabs_R0 in Htaper. lra. }
  split; f_equal.
  - rewrite Rminus_diag. ring.
  - field. exact Hne.
Qed.

Lemma z_int_boundary_witness :
  z_int 4 1 (4 * cos (PI / 5)) 5 = inr 0 /\
  z_int 4 1 (1 * cos (PI / 5)) 5 = inr f_h.
Proof.
  apply (z_int_boundary 4 1 5); [lia|].
  pose proof cos_PI5_bounds as [Hlo Hhi].
  rewrite Rabs_left; lra.
Defined.

(** C7 as stated fails on the code: with the top apothem above the bottom
    apothem by no more than [1e-5] the sentinel is returned for every
    cylinder radius, so [z_int] is constant there. *)
Lemma z_int_flat_below_threshold :
  1 * cos (PI / 5) < 1.000001 * cos (PI / 5) /\
  exists z1 z2,
    z_int 1 1.000001 2 5 = inr z1 /\
    z_int 1 1.000001 3 5 = inr z2 /\
    ~ (z1 < z2).
Proof.
  pose proof cos_PI5_bounds as [Hlo Hhi].
  split; [lra|].
  assert (Hflat : Rabs (1.000001 * cos (PI / 5) - 1 * cos (PI / 5))
                  <= 1e-5)
    by (rewrite Rabs_right; lra).
  exists (-1), (-1).
  rewrite !z_int_eq by lia.
  rewrite !solve_z_degenerate by exact Hflat.
  repeat split. lra.
Qed.

(** C7, amended. For [sides >= 3] and a top apothem above the bottom apothem
    by more than [1e-5], the solved height is strictly increasing in the
    cylinder radius. *)
Theorem z_int_increasing (f_bot_R f_top_R c1 c2 : R) (sides : Z) :
  (3 <= sides)%Z ->
  1e-5 < f_top_R * cos (PI / IZR sides) - f_bot_R * cos (PI / IZR sides) ->
  c1 < c2 ->
  exists z1 z2,
    z_int f_bot_R f_top_R c1 sides = inr z1 /\
    z_int f_bot_R f_top_R c2 sides = inr z2 /\
    z1 < z2.
Proof.
  intros Hs Htaper Hc.
  rewrite !z_int_eq by lia.
  set (r_bot := f_bot_R * cos (PI / IZR sides)) in *.
  set (r_top := f_top_R * cos (PI / IZR sides)) in *.
  assert (Habs : 1e-5 < Rabs (r_top - r_bot)) by (rewrite Rabs_right; lra).
  rewrite !solve_z_tapered by exact Habs.
  eexists _, _. split; [reflexivity|]. split; [reflexivity|].
  assert (Hpos : 0 < f_h / (r_top - r_bot))
    by (apply Rdiv_lt_0_compat; unfold f_h; lra).
  apply Rmult_lt_compat_r; [exact Hpos|lra].
Qed.

Lemma z_int_increasing_witness :
  exists z1 z2,
    z_int 1 4 2 5 = inr z1 /\ z_int 1 4 3 5 = inr z2 /\ z1 < z2.
Proof.
  apply (z_int_increasing 1 4 2 3 5); [lia| |lra].
  pose proof cos_PI5_bounds as [Hlo Hhi]. lra.
Defined.

(** ** What [update_plot] reports *)

(** C4. For [sides >= 3] and apothems further apart than [1e-5], [z_int] is
    the solved height itself, whether or not it lies in [[0, f_h]]. The title
    is the numeric report, carrying that same unclamped height, exactly when
    [0 <= z_int <= f_h]; otherwise it is "No Side Intersection", although the
    clamped [z_vis] always lies in [[0, f_h]]. In particular a negative
    solved height is reported as no intersection. *)
Theorem update_plot_tests_raw_z (f_bot_R f_top_R c_r : R) (sides : Z) :
  (3 <= sides)%Z ->
  1e-5 < Rabs (f_top_R * cos (PI / IZR sides)
               - f_bot_R * cos (PI / IZR sides)) ->
  let z := (c_r - f_bot_R * cos (PI / IZR sides))
           * (f_h / (f_top_R * cos (PI / IZR sides)
                     - f_bot_R * cos (PI / IZR sides))) in
  z_int f_bot_R f_top_R c_r sides = inr z /\
  0 <= z_vis z <= f_h /\
  exists p,
    update_plot f_bot_R f_top_R c_r sides = inr p /\
    (0 <= z <= f_h ->
       exists v_top_len v_bot_len m_len,
         feedback p = Covered z v_top_len v_bot_len m_len) /\
    (~ (0 <= z <= f_h) -> feedback p = NoSideIntersection) /\
    (z < 0 -> feedback p = NoSideIntersection).
Proof.
  intros Hs Htaper z.
  assert (Hz : solve_z (f_bot_R * cos (PI / IZR sides))
                       (f_top_R * cos (PI / IZR sides)) c_r = z)
    by (apply solve_z_tapered; exact Htaper).
  split; [rewrite z_int_eq by lia; f_equal; exact Hz|].
  split; [apply z_vis_bounds|].
  destruct (update_plot_feedback f_bot_R f_top_R c_r sides ltac:(lia))
    as (p & Hup & _ & Hin & Hout).
  rewrite Hz in Hin, Hout.
  exists p. split; [exact Hup|].
  split; [|split].
  - intros Hrange. apply in_shade_true in Hrange.
    destruct (Hin Hrange) as [_ [m_len Hfb]].
    eexists _, _, m_len. exact Hfb.
  - intros Hrange. apply in_shade_false in Hrange.
    apply (Hout Hrange).
  - intros Hneg.
    assert (Hrange : ~ (0 <= z <= f_h)) by lra.
    apply in_shade_false in Hrange. apply (Hout Hrange).
Qed.

(** The spec's second scenario, a glass of radius 6 in the default shade:
    the solved height is negative. *)
Lemma glass_6_solves_negative :
  (6 - 4 * cos (PI / 5)) * (f_h / (1 * cos (PI / 5) - 4 * cos (PI / 5))) < 0.
Proof.
  pose proof cos_PI5_bounds as [Hlo Hhi].
  set (k := cos (PI / 5)) in *.
  assert (Hd : f_h / (1 * k - 4 * k) < 0).
  { unfold Rdiv. apply Rmult_pos_neg; [unfold f_h; lra|].
    apply Rinv_lt_0_compat. lra. }
  assert (Hn : 0 < 6 - 4 * k) by lra.
  nra.
Qed.

Lemma update_plot_tests_raw_z_witness :
  let z := (6 - 4 * cos (PI / 5))
           * (f_h / (1 * cos (PI / 5) - 4 * cos (PI / 5))) in
  z_int 4 1 6 5 = inr z /\
  0 <= z_vis z <= f_h /\
  exists p,
    update_plot 4 1 6 5 = inr p /\
    (0 <= z <= f_h ->
       exists v_top_len v_bot_len m_len,
         feedback p = Covered z v_top_len v_bot_len m_len) /\
    (~ (0 <= z <= f_h) -> feedback p = NoSideIntersection) /\
    (z < 0 -> feedback p = NoSideIntersection).
Proof.
  apply (update_plot_tests_raw_z 4 1 6 5); [lia|].
  pose proof cos_PI5_bounds as [Hlo Hhi].
  rewrite Rabs_left; lra.
Defined.

(** The solved height of the default scenario: [20/3 - 10 / (3 k)] with
    [k = cos (pi / 5)]. *)
Lemma default_height_bounds :
  2.5464 < (2 - 4 * cos (PI / 5))
           * (f_h / (1 * cos (PI / 5) - 4 * cos (PI / 5))) < 2.5465.
Proof.
  pose proof cos_PI5_bounds as [Hlo Hhi].
  set (k := cos (PI / 5)) in *.
  replace ((2 - 4 * k) * (f_h / (1 * k - 4 * k)))
    with ((20 * k - 10) / (3 * k)) by (unfold f_h; field; lra).
  split.
  - apply Rmult_lt_reg_r with (r := 3 * k); [lra|].
    unfold Rdiv. rewrite Rmult_assoc, Rinv_l by lra. lra.
  - apply Rmult_lt_reg_r with (r := 3 * k); [lra|].
    unfold Rdiv. rewrite Rmult_assoc, Rinv_l by lra. lra.
Qed.

(** C9. The default scenario [update_plot(4.0, 1.0, 2.0, 5)]: the apothem
    factor is [cos (pi / 5)], about 0.8090; the apothems are about 3.236 and
    0.809; the solved height is [(2 - r_bot) * 5 / (r_top - r_bot)], about
    2.546, inside [[0, 5]], and the title is the numeric report with that
    height. *)
Theorem default_scenario :
  exists k z p v_top_len v_bot_len m_len,
    COS36 5 = inr k /\
    k = cos (PI / 5) /\
    Rabs (k - 0.8090) < 0.00005 /\
    Rabs (4 * k - 3.236) < 0.0005 /\
    Rabs (1 * k - 0.809) < 0.0005 /\
    z_int 4 1 2 5 = inr z /\
    z = (2 - 4 * k) * (5 / (1 * k - 4 * k)) /\
    Rabs (z - 2.546) < 0.0005 /\
    0 <= z <= 5 /\
    update_plot 4 1 2 5 = inr p /\
    feedback p = Covered z v_top_len v_bot_len m_len.
Proof.
  pose proof cos_PI5_bounds as [Hlo Hhi].
  pose proof default_height_bounds as [Hzlo Hzhi].
  set (k := cos (PI / 5)) in *.
  set (z := (2 - 4 * k) * (f_h / (1 * k - 4 * k))) in *.
  assert (Htaper : 1e-5 < Rabs (1 * k - 4 * k))
    by (rewrite Rabs_left; lra).
  assert (Hz : solve_z (4 * k) (1 * k) 2 = z)
    by (apply solve_z_tapered; exact Htaper).
  destruct (update_plot_feedback 4 1 2 5 ltac:(lia))
    as (p & Hup & _ & Hin & _).
  fold k in Hin. rewrite Hz in Hin.
  destruct Hin as [_ [m_len Hfb]]; [apply in_shade_true; unfold f_h; lra|].
  exists k, z, p, (first_edge 1 5), (first_edge 4 5), m_len.
  split; [apply COS36_eq; lia|].
  split; [reflexivity|].
  split; [apply Rabs_def1; lra|].
  split; [apply Rabs_def1; lra|].
  split; [apply Rabs_def1; lra|].
  split; [rewrite z_int_eq by lia; fold k; f_equal; exact Hz|].
  split; [reflexivity|].
  split; [apply Rabs_def1; lra|].
  split; [lra|].
  split; [exact Hup|exact Hfb].
Qed.

Lemma glass_6_no_side_intersection :
  exists p, update_plot 4 1 6 5 = inr p /\
            feedback p = NoSideIntersection /\ scatter p = None.
Proof.
  pose proof cos_PI5_bounds as [Hlo Hhi].
  pose proof glass_6_solves_negative as Hneg.
  destruct (update_plot_feedback 4 1 6 5 ltac:(lia))
    as (p & Hup & _ & _ & Hout).
  rewrite solve_z_tapered in Hout by (rewrite Rabs_left; lra).
  exists p. split; [exact Hup|].
  destruct Hout as [Hsc Hfb]; [apply in_shade_false; lra|].
  split; assumption.
Qed.

(** C10. The sentinel is the number [-1]. Take an untapered input (apothems
    within [1e-5]) and a tapered input whose solved height misses
    [[0, f_h]]: [z_int] of the first is [-1], which fails the test
    [0 <= z_int <= f_h] like the second does, and both calls end with the
    same title "No Side Intersection" and no scattered points; when the miss
    is below 0 the cylinder heights drawn are the same too. Nothing in the
    plot tells the two cases apart. *)
Theorem untapered_reads_as_miss
  (f_bot_R f_top_R c_r : R) (sides : Z)
  (f_bot_R' f_top_R' c_r' : R) (sides' : Z) :
  (3 <= sides)%Z -> (3 <= sides')%Z ->
  Rabs (f_top_R * cos (PI / IZR sides) - f_bot_R * cos (PI / IZR sides))
    <= 1e-5 ->
  1e-5 < Rabs (f_top_R' * cos (PI / IZR sides')
               - f_bot_R' * cos (PI / IZR sides')) ->
  let z' := (c_r' - f_bot_R' * cos (PI / IZR sides'))
            * (f_h / (f_top_R' * cos (PI / IZR sides')
                      - f_bot_R' * cos (PI / IZR sides'))) in
  ~ (0 <= z' <= f_h) ->
  z_int f_bot_R f_top_R c_r sides = inr (-1) /\
  z_int f_bot_R' f_top_R' c_r' sides' = inr z' /\
  in_shade (-1) = false /\
  in_shade z' = false /\
  exists p p',
    update_plot f_bot_R f_top_R c_r sides = inr p /\
    update_plot f_bot_R' f_top_R' c_r' sides' = inr p' /\
    feedback p = NoSideIntersection /\
    feedback p' = NoSideIntersection /\
    scatter p = None /\
    scatter p' = None /\
    (z' < 0 -> z_dynamic p = z_dynamic p').
Proof.
  intros Hs Hs' Hflat Htaper z' Hmiss.
  assert (Hz : solve_z (f_bot_R * cos (PI / IZR sides))
                       (f_top_R * cos (PI / IZR sides)) c_r = -1)
    by (apply solve_z_degenerate; exact Hflat).
  assert (Hz' : solve_z (f_bot_R' * cos (PI / IZR sides'))
                        (f_top_R' * cos (PI / IZR sides')) c_r' = z')
    by (apply solve_z_tapered; exact Htaper).
  assert (Hout' : in_shade z' = false) by (apply in_shade_false; exact Hmiss).
  split; [rewrite z_int_eq by lia; f_equal; exact Hz|].
  split; [rewrite z_int_eq by lia; f_equal; exact Hz'|].
  split; [exact in_shade_sentinel|].
  split; [exact Hout'|].
  destruct (update_plot_feedback f_bot_R f_top_R c_r sides ltac:(lia))
    as (p & Hup & Hzd & _ & Hout).
  destruct (update_plot_feedback f_bot_R' f_top_R' c_r' sides' ltac:(lia))
    as (p' & Hup' & Hzd' & _ & Hmiss_out).
  rewrite Hz in Hzd, Hout. rewrite Hz' in Hzd', Hmiss_out.
  destruct (Hout in_shade_sentinel) as [Hsc Hfb].
  destruct (Hmiss_out Hout') as [Hsc' Hfb'].
  exists p, p'.
  repeat (split; [assumption|]).
  intros Hneg.
  destruct (Rlt_dec 0 (-1)) as [H|_]; [lra|].
  destruct (Rlt_dec 0 z') as [H|_]; [lra|].
  rewrite Hzd in Hzd'. injection Hzd' as E. exact E.
Qed.

Lemma untapered_reads_as_miss_witness :
  let z' := (6 - 4 * cos (PI / 5))
            * (f_h / (1 * cos (PI / 5) - 4 * cos (PI / 5))) in
  z_int 4 4 2 5 = inr (-1) /\
  z_int 4 1 6 5 = inr z' /\
  in_shade (-1) = false /\
  in_shade z' = false /\
  exists p p',
    update_plot 4 4 2 5 = inr p /\
    update_plot 4 1 6 5 = inr p' /\
    feedback p = NoSideIntersection /\
    feedback p' = NoSideIntersection /\
    scatter p = None /\
    scatter p' = None /\
    (z' < 0 -> z_dynamic p = z_dynamic p').
Proof.
  pose proof cos_PI5_bounds as [Hlo Hhi].
  pose proof glass_6_solves_negative as Hneg.
  apply (untapered_reads_as_miss 4 4 2 5 4 1 6 5); [lia|lia| | |].
  - rewrite Rminus_diag, Rabs_R0. lra.
  - rewrite Rabs_left; lra.
  - lra.
Defined.

(** ** Inputs outside the documented domain *)

(** C2 as stated fails on the code: a top radius of 0 is outside the domain,
    yet [update_plot 4 0 2 5] raises nothing and ends with the numeric
    report. *)
Lemma update_plot_accepts_zero_radius :
  (forall e, update_plot 4 0 2 5 <> inl e) /\
  exists p z v_top_len v_bot_len m_len,
    update_plot 4 0 2 5 = inr p /\
    feedback p = Covered z v_top_len v_bot_len m_len.
Proof.
  pose proof cos_PI5_bounds as [Hlo Hhi].
  destruct (update_plot_feedback 4 0 2 5 ltac:(lia))
    as (p & Hup & _ & Hin & _).
  set (k := cos (PI / 5)) in *.
  rewrite solve_z_tapered in Hin by (rewrite Rabs_left; lra).
  destruct Hin as [_ [m_len Hfb]].
  - apply in_shade_true. unfold f_h.
    replace ((2 - 4 * k) * (5 / (0 * k - 4 * k)))
      with ((10 * k - 5) / (2 * k)) by (field; lra).
    split.
    + apply Rmult_le_reg_r with (r := 2 * k); [lra|].
      unfold Rdiv. rewrite Rmult_assoc, Rinv_l by lra. lra.
    + apply Rmult_le_reg_r with (r := 2 * k); [lra|].
      unfold Rdiv. rewrite Rmult_assoc, Rinv_l by lra. lra.
  - split.
    + intros e E. rewrite Hup in E. discriminate.
    + eexists p, _, _, _, m_len. split; [exact Hup|exact Hfb].
Qed.

(** C2, amended. [update_plot] checks none of its inputs: for every side
    count from 2 on and all real radii, positive or not, it raises nothing
    and reports as it does inside the domain, from the height solved by the
    same formulas: the numeric report when [0 <= z_int <= f_h], "No Side
    Intersection" otherwise. *)
Theorem update_plot_no_validation (f_bot_R f_top_R c_r : R) (sides : Z) :
  (2 <= sides)%Z ->
  exists z p,
    z_int f_bot_R f_top_R c_r sides = inr z /\
    update_plot f_bot_R f_top_R c_r sides = inr p /\
    (0 <= z <= f_h ->
       exists v_top_len v_bot_len m_len,
         feedback p = Covered z v_top_len v_bot_len m_len) /\
    (~ (0 <= z <= f_h) -> feedback p = NoSideIntersection).
Proof.
  intros Hs.
  destruct (update_plot_feedback f_bot_R f_top_R c_r sides Hs)
    as (p & Hup & _ & Hin & Hout).
  eexists _, p.
  split; [apply z_int_eq; lia|].
  split; [exact Hup|]. split.
  - intros Hrange. apply in_shade_true in Hrange.
    destruct (Hin Hrange) as [_ [m_len Hfb]].
    eexists _, _, m_len. exact Hfb.
  - intros Hrange. apply in_shade_false in Hrange.
    apply (Hout Hrange).
Qed.

Lemma update_plot_no_validation_witness :
  exists z p,
    z_int 4 (-1) 0 2 = inr z /\
    update_plot 4 (-1) 0 2 = inr p /\
    (0 <= z <= f_h ->
       exists v_top_len v_bot_len m_len,
         feedback p = Covered z v_top_len v_bot_len m_len) /\
    (~ (0 <= z <= f_h) -> feedback p = NoSideIntersection).
Proof.
  apply (update_plot_no_validation 4 (-1) 0 2). lia.
Defined.

(** Below two sides the call stops on a Python exception of the arithmetic
    or of the indexing, not on a check of the arguments. *)
Lemma update_plot_zero_sides (f_bot_R f_top_R c_r : R) :
  update_plot f_bot_R f_top_R c_r 0 = inl ZeroDivisionError.
Proof. reflexivity. Qed.

Lemma update_plot_one_side (f_bot_R f_top_R c_r : R) :
  update_plot f_bot_R f_top_R c_r 1 = inl IndexError.
Proof.
  unfold update_plot.
  rewrite z_int_eq by lia.
  rewrite !get_face_vertices_eq by lia.
  reflexivity.
Qed.

(** * Further properties of the code *)

(** ** Explicit results of the loops and of [np.linspace] *)

Lemma getitem_ring {A : Type} (h : nat -> A) (n : Z) (k : nat) :
  (k < Z.to_nat n)%nat -> getitem (map h (range n)) k = inr (h k).
Proof.
  intros Hk. unfold getitem.
  rewrite nth_error_map, nth_error_range by exact Hk. reflexivity.
Qed.

Lemma for_each_map {A B : Type} (f : A -> result B) (g : A -> B)
  (xs : list A) :
  (forall x, In x xs -> f x = inr (g x)) ->
  for_each f xs = inr (map g xs).
Proof.
  induction xs as [|x xs IH]; intros Hall; simpl.
  - reflexivity.
  - rewrite (Hall x (or_introl eq_refl)).
    rewrite IH by (intros x' Hin; apply Hall; right; exact Hin).
    reflexivity.
Qed.

Lemma side_faces_eq (f g : nat -> point) (sides : Z) :
  (1 <= sides)%Z ->
  side_faces (map f (range sides)) (map g (range sides)) sides =
  inr (map (fun i =>
              let j := ((i + 1) mod Z.to_nat sides)%nat in
              [f i; f j; g j; g i]) (range sides)).
Proof.
  intros Hs. unfold side_faces. apply for_each_map.
  intros i Hi. unfold range in Hi. apply in_seq in Hi.
  assert (Hj : ((i + 1) mod Z.to_nat sides < Z.to_nat sides)%nat)
    by (apply Nat.mod_upper_bound; lia).
  rewrite !getitem_ring by lia. reflexivity.
Qed.

Lemma linspace_eq (start stop : R) (num : Z) :
  (2 <= num)%Z ->
  linspace start stop num = inr (linspace_samples start stop num).
Proof.
  intros Hn. unfold linspace, linspace_samples.
  destruct (Z.ltb_spec num 0) as [H|_]; [lia|].
  destruct (Z.ltb_spec 0 (num - 1)) as [_|H]; [|lia].
  destruct (Z.ltb_spec 1 num) as [_|H]; [|lia].
  unfold ret, range. do 2 f_equal.
  replace (Z.to_nat num) with (S (Z.to_nat num - 1)) at 1 by lia.
  rewrite seq_S, map_app. simpl. apply removelast_last.
Qed.

Lemma length_linspace_samples (start stop : R) (num : Z) :
  (2 <= num)%Z -> length (linspace_samples start stop num) = Z.to_nat num.
Proof.
  intros Hn. unfold linspace_samples.
  rewrite length_app, length_map, length_seq. simpl. lia.
Qed.

Lemma nth_linspace_samples (start stop : R) (num : Z) (i : nat) :
  (2 <= num)%Z -> (i < Z.to_nat num)%nat ->
  nth_error (linspace_samples start stop num) i =
  Some (if (i =? Z.to_nat num - 1)%nat then stop
        else INR i * ((stop - start) / IZR (num - 1)) + start).
Proof.
  intros Hn Hi. unfold linspace_samples.
  destruct (Nat.eqb_spec i (Z.to_nat num - 1)) as [E|E].
  - rewrite nth_error_app2 by (rewrite length_map, length_seq; lia).
    rewrite length_map, length_seq, E, Nat.sub_diag. reflexivity.
  - rewrite nth_error_app1 by (rewrite length_map, length_seq; lia).
    rewrite nth_error_map.
    rewrite nth_error_nth' with (d := O) by (rewrite length_seq; lia).
    rewrite seq_nth by lia. reflexivity.
Qed.

(** Every sample lies between the two ends. *)
Lemma linspace_samples_between (start stop : R) (num : Z) (i : nat) (x : R) :
  (2 <= num)%Z -> start <= stop ->
  nth_error (linspace_samples start stop num) i = Some x ->
  start <= x <= stop.
Proof.
  intros Hn Hle Hx.
  assert (Hi : (i < Z.to_nat num)%nat).
  { rewrite <- (length_linspace_samples start stop num Hn).
    apply nth_error_Some. rewrite Hx. discriminate. }
  rewrite nth_linspace_samples in Hx by assumption.
  injection Hx as <-.
  destruct (Nat.eqb_spec i (Z.to_nat num - 1)) as [E|E]; [lra|].
  assert (Hd : 0 < IZR (num - 1)) by (apply IZR_lt; lia).
  assert (Hi' : INR i <= IZR (num - 1)).
  { rewrite INR_IZR_INZ. apply IZR_le. lia. }
  assert (H0 : 0 <= INR i) by apply pos_INR.
  set (t := INR i / IZR (num - 1)).
  assert (Ht : 0 <= t <= 1).
  { unfold t. split.
    - apply Rmult_le_pos; [exact H0|]. left. apply Rinv_0_lt_compat. exact Hd.
    - apply Rmult_le_reg_r with (r := IZR (num - 1)); [exact Hd|].
      unfold Rdiv. rewrite Rmult_assoc, Rinv_l by lra. lra. }
  replace (INR i * ((stop - start) / IZR (num - 1)) + start)
    with (t * (stop - start) + start) by (unfold t; field; lra).
  nra.
Qed.

(** The whole of [update_plot] for two sides or more, written out. *)
Lemma update_plot_eq (f_bot_R f_top_R c_r : R) (sides : Z) :
  (2 <= sides)%Z ->
  let z := solve_z (f_bot_R * cos (PI / IZR sides))
                   (f_top_R * cos (PI / IZR sides)) c_r in
  let vertex r h i :=
    mkPoint (r * cos (ring_angle sides i)) (r * sin (ring_angle sides i)) h in
  let mid r h i :=
    mkPoint (r * cos (ring_angle sides i + PI / 5))
            (r * sin (ring_angle sides i + PI / 5)) h in
  let r_t := first_edge f_top_R sides / 2 / tan (PI / IZR sides) in
  let r_b := first_edge f_bot_R sides / 2 / tan (PI / IZR sides) in
  update_plot f_bot_R f_top_R c_r sides =
  inr (mkPlot
         ([map (vertex f_bot_R 0) (range sides);
           map (vertex f_top_R f_h) (range sides)]
          ++ map (fun i =>
                    let j := ((i + 1) mod Z.to_nat sides)%nat in
                    [vertex f_bot_R 0 i; vertex f_bot_R 0 j;
                     vertex f_top_R f_h j; vertex f_top_R f_h i])
                 (range sides))
         (linspace_samples 0 (if Rlt_dec 0 z then z_vis z else 0.01) 20)
         (if in_shade z then Some (map (mid c_r z) (range sides)) else None)
         (if in_shade z
          then Covered z (first_edge f_top_R sides) (first_edge f_bot_R sides)
                       (dist (mid r_t f_h 0%nat) (mid r_b 0 0%nat))
          else NoSideIntersection)).
Proof.
  intros Hs z vertex mid r_t r_b.
  assert (Hs0 : sides <> 0%Z) by lia.
  assert (Hs1 : (1 <= sides)%Z) by lia.
  unfold update_plot.
  rewrite z_int_eq by exact Hs0. fold z. cbn [bind].
  rewrite !get_face_vertices_eq by exact Hs1. cbn [bind].
  fold (vertex f_bot_R 0) (vertex f_top_R f_h).
  rewrite side_faces_eq by exact Hs1. cbn [bind].
  unfold vertex at 1 2.
  rewrite !edge_len_ring by exact Hs. cbn [bind].
  rewrite !get_inradius_eq by exact Hs0. cbn [bind].
  fold r_t r_b.
  rewrite !get_face_midpoints_eq by exact Hs1. cbn [bind].
  fold (mid r_t f_h) (mid r_b 0) (mid c_r z).
  rewrite !getitem_ring by lia. cbn [bind].
  rewrite linspace_eq by lia. cbn [bind].
  destruct (in_shade z); reflexivity.
Qed.

(** The inradius [update_plot] derives from a measured edge is the apothem
    of the ring. *)
Lemma inradius_of_edge (radius : R) (sides : Z) :
  (3 <= sides)%Z -> 0 <= radius ->
  first_edge radius sides / 2 / tan (PI / IZR sides)
  = radius * cos (PI / IZR sides).
Proof.
  intros Hs Hr. rewrite first_edge_eq by (lia || lra).
  pose proof (sin_PI_over_pos sides ltac:(lia)) as Hsin.
  pose proof (cos_PI_over_pos sides Hs) as Hcos.
  unfold tan. field. split; lra.
Qed.

(** Two points of equal phase on rings of radii [r1] and [r2]. *)
Lemma dist_same_phase (r1 r2 h1 h2 a : R) :
  dist (mkPoint (r1 * cos a) (r1 * sin a) h1)
       (mkPoint (r2 * cos a) (r2 * sin a) h2)
  = sqrt ((r1 - r2) ^ 2 + (h1 - h2) ^ 2).
Proof.
  unfold dist. cbn [px py pz]. f_equal.
  pose proof (sin2_cos2 a) as Hsc. unfold Rsqr in Hsc.
  transitivity ((r1 - r2) ^ 2 * (sin a * sin a + cos a * cos a)
                + (h1 - h2) ^ 2).
  - ring.
  - rewrite Hsc. ring.
Qed.

(** ** The solve: where it reports, what it inverts, its symmetries *)

Lemma in_shade_solve_z (r_bot r_top c_r : R) :
  in_shade (solve_z r_bot r_top c_r) = true <->
  1e-5 < Rabs (r_top - r_bot) /\
  Rmin r_bot r_top <= c_r <= Rmax r_bot r_top.
Proof.
  rewrite in_shade_true. unfold solve_z, f_h.
  destruct (Rlt_dec 1e-5 (Rabs (r_top - r_bot))) as [Ht|Ht].
  - assert (Hd : r_top - r_bot <> 0)
      by (intros E; rewrite E, Rabs_R0 in Ht; lra).
    remember (r_top - r_bot) as d eqn:Hdd.
    remember ((c_r - r_bot) / d) as t eqn:Hdt.
    assert (Htd : t * d = c_r - r_bot) by (subst t; field; exact Hd).
    replace ((c_r - r_bot) * (5 / d)) with (5 * t)
      by (subst t; field; exact Hd).
    unfold Rmin, Rmax.
    destruct (Rle_dec r_bot r_top) as [Hle|Hgt].
    + assert (Hpos : 0 < d)
        by (destruct (Rtotal_order d 0) as [H|[H|H]];
            [lra|contradiction|exact H]).
      split.
      * intros [H0 H1]. split; [exact Ht|]. split; nra.
      * intros [_ [H0 H1]]. split; nra.
    + assert (Hneg : d < 0) by lra.
      split.
      * intros [H0 H1]. split; [exact Ht|]. split; nra.
      * intros [_ [H0 H1]]. split; nra.
  - split; [lra|]. intros [H _]. contradiction.
Qed.



(** X2. For [sides >= 3] and apothems further apart than [1e-5], the solved
    height is the height at which the straight apothem profile from
    [r_bot] (at 0) to [r_top] (at [f_h]) equals the cylinder radius. *)
Theorem z_int_on_profile (f_bot_R f_top_R c_r : R) (sides : Z) :
  (3 <= sides)%Z ->
  let r_bot := f_bot_R * cos (PI / IZR sides) in
  let r_top := f_top_R * cos (PI / IZR sides) in
  1e-5 < Rabs (r_top - r_bot) ->
  exists z,
    z_int f_bot_R f_top_R c_r sides = inr z /\
    r_bot + (r_top - r_bot) * (z / f_h) = c_r.
Proof.
  intros Hs r_bot r_top Htaper.
  rewrite z_int_eq by lia. fold r_bot r_top.
  rewrite solve_z_tapered by exact Htaper.
  eexists. split; [reflexivity|].
  assert (Hd : r_top - r_bot <> 0)
    by (intros E; rewrite E, Rabs_R0 in Htaper; lra).
  unfold f_h. field. exact Hd.
Qed.

Lemma z_int_on_profile_witness :
  exists z,
    z_int 4 1 2 5 = inr z /\
    4 * cos (PI / 5) + (1 * cos (PI / 5) - 4 * cos (PI / 5)) * (z / f_h) = 2.
Proof.
  apply (z_int_on_profile 4 1 2 5); [lia|].
  pose proof cos_PI5_bounds as [Hlo Hhi].
  rewrite Rabs_left; lra.
Defined.

(** X3. Turning the shade upside down (exchanging the two circumradii)
    mirrors the solved height in the middle of the shade: the new height is
    [f_h] minus the old one. *)
Theorem z_int_flip (f_bot_R f_top_R c_r : R) (sides : Z) :
  (3 <= sides)%Z ->
  1e-5 < Rabs (f_top_R * cos (PI / IZR sides)
               - f_bot_R * cos (PI / IZR sides)) ->
  exists z z',
    z_int f_bot_R f_top_R c_r sides = inr z /\
    z_int f_top_R f_bot_R c_r sides = inr z' /\
    z' = f_h - z.
Proof.
  intros Hs Htaper.
  rewrite !z_int_eq by lia.
  set (r_bot := f_bot_R * cos (PI / IZR sides)) in *.
  set (r_top := f_top_R * cos (PI / IZR sides)) in *.
  assert (Htaper' : 1e-5 < Rabs (r_bot - r_top))
    by (rewrite Rabs_minus_sym; exact Htaper).
  rewrite (solve_z_tapered r_bot r_top) by exact Htaper.
  rewrite (solve_z_tapered r_top r_bot) by exact Htaper'.
  eexists _, _. split; [reflexivity|]. split; [reflexivity|].
  assert (Hd : r_top - r_bot <> 0)
    by (intros E; rewrite E, Rabs_R0 in Htaper; lra).
  unfold f_h. field. split; lra.
Qed.

Lemma z_int_flip_witness :
  exists z z',
    z_int 4 1 2 5 = inr z /\ z_int 1 4 2 5 = inr z' /\ z' = f_h - z.
Proof.
  apply (z_int_flip 4 1 2 5); [lia|].
  pose proof cos_PI5_bounds as [Hlo Hhi].
  rewrite Rabs_left; lra.
Defined.

(** X4. For a shade that narrows upwards, the top apothem below the bottom
    apothem by more than [1e-5], the solved height is strictly decreasing
    in the cylinder radius: a wider glass meets the shade lower. *)
Theorem z_int_decreasing (f_bot_R f_top_R c1 c2 : R) (sides : Z) :
  (3 <= sides)%Z ->
  1e-5 < f_bot_R * cos (PI / IZR sides) - f_top_R * cos (PI / IZR sides) ->
  c1 < c2 ->
  exists z1 z2,
    z_int f_bot_R f_top_R c1 sides = inr z1 /\
    z_int f_bot_R f_top_R c2 sides = inr z2 /\
    z2 < z1.
Proof.
  intros Hs Htaper Hc.
  rewrite !z_int_eq by lia.
  set (r_bot := f_bot_R * cos (PI / IZR sides)) in *.
  set (r_top := f_top_R * cos (PI / IZR sides)) in *.
  assert (Habs : 1e-5 < Rabs (r_top - r_bot)) by (rewrite Rabs_left; lra).
  rewrite !solve_z_tapered by exact Habs.
  eexists _, _. split; [reflexivity|]. split; [reflexivity|].
  assert (Hneg : f_h / (r_top - r_bot) < 0).
  { unfold Rdiv. apply Rmult_pos_neg; [unfold f_h; lra|].
    apply Rinv_lt_0_compat. lra. }
  nra.
Qed.

Lemma z_int_decreasing_witness :
  exists z1 z2,
    z_int 4 1 2 5 = inr z1 /\ z_int 4 1 3 5 = inr z2 /\ z2 < z1.
Proof.
  apply (z_int_decreasing 4 1 2 3 5); [lia| |lra].
  pose proof cos_PI5_bounds as [Hlo Hhi]. lra.
Defined.

(** ** The geometry of the rings *)

Lemma INR_to_nat (n : Z) : (0 <= n)%Z -> INR (Z.to_nat n) = IZR n.
Proof.
  intros Hn. rewrite INR_IZR_INZ, Z2Nat.id by exact Hn. reflexivity.
Qed.

(** Going to the next index, wrapping at [sides], advances the angle by one
    step as far as [cos] and [sin] can tell. *)
Lemma ring_angle_next (sides : Z) (i : nat) :
  (1 <= sides)%Z -> (i < Z.to_nat sides)%nat ->
  let j := ((i + 1) mod Z.to_nat sides)%nat in
  cos (ring_angle sides j) = cos (ring_angle sides i + 2 * (PI / IZR sides)) /\
  sin (ring_angle sides j) = sin (ring_angle sides i + 2 * (PI / IZR sides)).
Proof.
  intros Hs Hi j.
  assert (Hn : IZR sides <> 0) by (apply IZR_pos_neq; exact Hs).
  destruct (Nat.eq_dec (i + 1) (Z.to_nat sides)) as [E|E].
  - assert (Hj : j = 0%nat) by (unfold j; rewrite E; apply Nat.Div0.mod_same).
    rewrite Hj, ring_angle_0.
    assert (Hfull : ring_angle sides i + 2 * (PI / IZR sides) = 2 * PI).
    { unfold ring_angle.
      assert (Hi1 : INR i = IZR sides - 1).
      { rewrite <- (INR_to_nat sides) by lia. rewrite <- E.
        rewrite plus_INR. simpl. ring. }
      rewrite Hi1. field. exact Hn. }
    rewrite Hfull, cos_0, sin_0, cos_2PI, sin_2PI. split; reflexivity.
  - assert (Hj : j = (i + 1)%nat) by (unfold j; apply Nat.mod_small; lia).
    rewrite Hj.
    replace (ring_angle sides (i + 1))
      with (ring_angle sides i + 2 * (PI / IZR sides)).
    + split; reflexivity.
    + unfold ring_angle. rewrite plus_INR. simpl. field. exact Hn.
Qed.

(** The chord between two points of a ring. *)
Lemma chord_sq (r a b : R) :
  (r * cos a - r * cos b) ^ 2 + (r * sin a - r * sin b) ^ 2
  = r ^ 2 * (2 - 2 * (cos b * cos a + sin b * sin a)).
Proof.
  pose proof (sin2_cos2 a) as Ha. pose proof (sin2_cos2 b) as Hb.
  unfold Rsqr in Ha, Hb.
  transitivity (r ^ 2 * ((sin a * sin a + cos a * cos a)
                         + (sin b * sin b + cos b * cos b)
                         - 2 * (cos b * cos a + sin b * sin a))).
  - ring.
  - rewrite Ha, Hb. ring.
Qed.

Lemma ring_step_dist (r h : R) (sides : Z) (i : nat) :
  (2 <= sides)%Z -> 0 <= r -> (i < Z.to_nat sides)%nat ->
  let j := ((i + 1) mod Z.to_nat sides)%nat in
  dist (mkPoint (r * cos (ring_angle sides i)) (r * sin (ring_angle sides i)) h)
       (mkPoint (r * cos (ring_angle sides j)) (r * sin (ring_angle sides j)) h)
  = 2 * r * sin (PI / IZR sides).
Proof.
  intros Hs Hr Hi j.
  destruct (ring_angle_next sides i ltac:(lia) Hi) as [Hc Hsn].
  fold j in Hc, Hsn.
  unfold dist. cbn [px py pz].
  rewrite chord_sq, Hc, Hsn.
  set (a := ring_angle sides i). set (d := PI / IZR sides).
  replace (cos (a + 2 * d) * cos a + sin (a + 2 * d) * sin a)
    with (cos (a + 2 * d - a)) by apply cos_minus.
  replace (a + 2 * d - a) with (2 * d) by ring.
  rewrite cos_2a_sin.
  pose proof (sin_PI_over_pos sides Hs) as Hsin. fold d in Hsin.
  replace (r ^ 2 * (2 - 2 * (1 - 2 * sin d * sin d)) + (h - h) ^ 2)
    with (Rsqr (2 * r * sin d)) by (unfold Rsqr; ring).
  apply sqrt_Rsqr. nra.
Qed.

(** X5. The ring is regular: for [sides >= 3] and [radius > 0] every edge
    of the ring returned by [get_face_vertices], from vertex [i] to vertex
    [(i + 1) % sides], the closing edge included, has the length
    [2 * radius * sin (pi / sides)], which is also what [edge_len] measures
    on the first edge. *)
Theorem ring_edges_equal (radius z : R) (sides : Z) :
  (3 <= sides)%Z -> 0 < radius ->
  exists ring,
    get_face_vertices radius z sides = inr ring /\
    edge_len ring = inr (2 * radius * sin (PI / IZR sides)) /\
    forall i, (i < Z.to_nat sides)%nat ->
      exists p q,
        nth_error ring i = Some p /\
        nth_error ring ((i + 1) mod Z.to_nat sides) = Some q /\
        dist p q = 2 * radius * sin (PI / IZR sides).
Proof.
  intros Hs Hr.
  rewrite get_face_vertices_eq by lia.
  eexists. split; [reflexivity|]. split.
  - rewrite edge_len_ring by lia. f_equal. apply first_edge_eq; [lia|lra].
  - intros i Hi.
    assert (Hj : ((i + 1) mod Z.to_nat sides < Z.to_nat sides)%nat)
      by (apply Nat.mod_upper_bound; lia).
    eexists _, _.
    rewrite !nth_error_map, !nth_error_range by assumption.
    cbn [option_map].
    split; [reflexivity|]. split; [reflexivity|].
    apply ring_step_dist; [lia|lra|exact Hi].
Qed.

Lemma ring_edges_equal_witness :
  exists ring,
    get_face_vertices 4 0 5 = inr ring /\
    edge_len ring = inr (2 * 4 * sin (PI / 5)) /\
    forall i, (i < Z.to_nat 5)%nat ->
      exists p q,
        nth_error ring i = Some p /\
        nth_error ring ((i + 1) mod Z.to_nat 5) = Some q /\
        dist p q = 2 * 4 * sin (PI / 5).
Proof.
  apply (ring_edges_equal 4 0 5); [lia|lra].
Defined.

(** The middle of the edge from vertex [i] to the next vertex. *)
Lemma edge_midpoint (r h : R) (sides : Z) (i : nat) :
  (1 <= sides)%Z -> (i < Z.to_nat sides)%nat ->
  let j := ((i + 1) mod Z.to_nat sides)%nat in
  let d := PI / IZR sides in
  midpoint
    (mkPoint (r * cos (ring_angle sides i)) (r * sin (ring_angle sides i)) h)
    (mkPoint (r * cos (ring_angle sides j)) (r * sin (ring_angle sides j)) h)
  = mkPoint (r * cos d * cos (ring_angle sides i + d))
            (r * cos d * sin (ring_angle sides i + d)) h.
Proof.
  intros Hs Hi j d.
  destruct (ring_angle_next sides i Hs Hi) as [Hc Hsn].
  fold j d in Hc, Hsn.
  unfold midpoint. cbn [px py pz]. rewrite Hc, Hsn.
  set (a := ring_angle sides i).
  pose proof (form1 (a + 2 * d) a) as F1.
  pose proof (form3 (a + 2 * d) a) as F3.
  replace ((a + 2 * d - a) / 2) with d in F1, F3 by field.
  replace ((a + 2 * d + a) / 2) with (a + d) in F1, F3 by field.
  f_equal.
  - replace (r * cos a + r * cos (a + 2 * d))
      with (r * (cos (a + 2 * d) + cos a)) by ring.
    rewrite F1. field.
  - replace (r * sin a + r * sin (a + 2 * d))
      with (r * (sin (a + 2 * d) + sin a)) by ring.
    rewrite F3. field.
  - field.
Qed.

(** X6. For [sides >= 3] and [radius > 0], the value [get_inradius] returns
    for the edge measured on the ring of [get_face_vertices] is the distance
    from the axis point [(0, 0, z)] to the middle of every edge of that
    ring. *)
Theorem inradius_reaches_edge_middles (radius z : R) (sides : Z) :
  (3 <= sides)%Z -> 0 < radius ->
  exists ring s_len rho,
    get_face_vertices radius z sides = inr ring /\
    edge_len ring = inr s_len /\
    get_inradius s_len sides = inr rho /\
    forall i, (i < Z.to_nat sides)%nat ->
      exists p q,
        nth_error ring i = Some p /\
        nth_error ring ((i + 1) mod Z.to_nat sides) = Some q /\
        dist (midpoint p q) (mkPoint 0 0 z) = rho.
Proof.
  intros Hs Hr.
  rewrite get_face_vertices_eq by lia.
  eexists _, _, _. split; [reflexivity|].
  split; [apply edge_len_ring; lia|].
  rewrite get_inradius_eq, inradius_of_edge by (lia || lra).
  split; [reflexivity|].
  intros i Hi.
  assert (Hj : ((i + 1) mod Z.to_nat sides < Z.to_nat sides)%nat)
    by (apply Nat.mod_upper_bound; lia).
  eexists _, _.
  rewrite !nth_error_map, !nth_error_range by assumption.
  cbn [option_map].
  split; [reflexivity|]. split; [reflexivity|].
  rewrite edge_midpoint by (lia || assumption).
  pose proof (cos_PI_over_pos sides Hs) as Hcos.
  set (rho := radius * cos (PI / IZR sides)).
  set (a := ring_angle sides i + PI / IZR sides).
  replace (mkPoint 0 0 z) with (mkPoint (0 * cos a) (0 * sin a) z)
    by (f_equal; ring).
  rewrite dist_same_phase.
  replace ((rho - 0) ^ 2 + (z - z) ^ 2) with (Rsqr rho)
    by (unfold Rsqr; ring).
  apply sqrt_Rsqr. unfold rho. nra.
Qed.

Lemma inradius_reaches_edge_middles_witness :
  exists ring s_len rho,
    get_face_vertices 4 0 5 = inr ring /\
    edge_len ring = inr s_len /\
    get_inradius s_len 5 = inr rho /\
    forall i, (i < Z.to_nat 5)%nat ->
      exists p q,
        nth_error ring i = Some p /\
        nth_error ring ((i + 1) mod Z.to_nat 5) = Some q /\
        dist (midpoint p q) (mkPoint 0 0 0) = rho.
Proof.
  apply (inradius_reaches_edge_middles 4 0 5); [lia|lra].
Defined.

(** X7. On the pentagon the three helpers compose as the comments say: with
    the inradius obtained from the edge of the ring of circumradius
    [radius > 0], the points of [get_face_midpoints] are the middles of the
    edges of that ring, midpoint [i] between vertex [i] and vertex
    [(i + 1) % 5]. *)
Theorem pentagon_midpoints_bisect_edges (radius z : R) :
  0 < radius ->
  exists ring s_len rho mids,
    get_face_vertices radius z 5 = inr ring /\
    edge_len ring = inr s_len /\
    get_inradius s_len 5 = inr rho /\
    get_face_midpoints rho z 5 = inr mids /\
    forall i, (i < 5)%nat ->
      exists p q,
        nth_error ring i = Some p /\
        nth_error ring ((i + 1) mod 5) = Some q /\
        nth_error mids i = Some (midpoint p q).
Proof.
  intros Hr.
  rewrite get_face_vertices_eq by lia.
  eexists _, _, _, _. split; [reflexivity|].
  split; [apply edge_len_ring; lia|].
  rewrite get_inradius_eq, inradius_of_edge by (lia || lra).
  split; [reflexivity|].
  rewrite get_face_midpoints_eq by lia.
  split; [reflexivity|].
  intros i Hi.
  assert (Hi' : (i < Z.to_nat 5)%nat)
    by (change (Z.to_nat 5) with 5%nat; lia).
  assert (Hj : ((i + 1) mod 5 < Z.to_nat 5)%nat)
    by (change (Z.to_nat 5) with 5%nat; apply Nat.mod_upper_bound; lia).
  eexists _, _.
  rewrite !nth_error_map, !nth_error_range by assumption.
  cbn [option_map].
  split; [reflexivity|]. split; [reflexivity|].
  f_equal. symmetry.
  exact (edge_midpoint radius z 5 i ltac:(lia) Hi').
Qed.

Lemma pentagon_midpoints_bisect_edges_witness :
  exists ring s_len rho mids,
    get_face_vertices 4 0 5 = inr ring /\
    edge_len ring = inr s_len /\
    get_inradius s_len 5 = inr rho /\
    get_face_midpoints rho 0 5 = inr mids /\
    forall i, (i < 5)%nat ->
      exists p q,
        nth_error ring i = Some p /\
        nth_error ring ((i + 1) mod 5) = Some q /\
        nth_error mids i = Some (midpoint p q).
Proof.
  apply (pentagon_midpoints_bisect_edges 4 0). lra.
Defined.

(** X8. Whatever the side count [sides >= 1], the ring of
    [get_face_midpoints] is the ring of [get_face_vertices] for the same
    radius and height turned by the fixed angle [pi / 5] about the vertical
    axis, point by point. *)
Theorem midpoints_are_turned_vertices (radius z : R) (sides : Z) :
  (1 <= sides)%Z ->
  exists ring mids,
    get_face_vertices radius z sides = inr ring /\
    get_face_midpoints radius z sides = inr mids /\
    length mids = length ring /\
    forall i, (i < Z.to_nat sides)%nat ->
      exists v m,
        nth_error ring i = Some v /\
        nth_error mids i = Some m /\
        px m = px v * cos (PI / 5) - py v * sin (PI / 5) /\
        py m = px v * sin (PI / 5) + py v * cos (PI / 5) /\
        pz m = pz v.
Proof.
  intros Hs.
  rewrite get_face_vertices_eq, get_face_midpoints_eq by exact Hs.
  eexists _, _. split; [reflexivity|]. split; [reflexivity|].
  split; [rewrite !length_map; reflexivity|].
  intros i Hi. eexists _, _.
  rewrite !nth_error_map, !nth_error_range by exact Hi.
  cbn [option_map].
  split; [reflexivity|]. split; [reflexivity|].
  cbn [px py pz]. rewrite cos_plus, sin_plus.
  repeat split; ring.
Qed.

Lemma midpoints_are_turned_vertices_witness :
  exists ring mids,
    get_face_vertices 2 1 4 = inr ring /\
    get_face_midpoints 2 1 4 = inr mids /\
    length mids = length ring /\
    forall i, (i < Z.to_nat 4)%nat ->
      exists v m,
        nth_error ring i = Some v /\
        nth_error mids i = Some m /\
        px m = px v * cos (PI / 5) - py v * sin (PI / 5) /\
        py m = px v * sin (PI / 5) + py v * cos (PI / 5) /\
        pz m = pz v.
Proof.
  apply (midpoints_are_turned_vertices 2 1 4). lia.
Defined.

(** ** The numbers in the report *)

(** The title for [sides >= 3] and non-negative circumradii, in closed
    form. *)
Lemma update_plot_title (f_bot_R f_top_R c_r : R) (sides : Z) :
  (3 <= sides)%Z -> 0 <= f_bot_R -> 0 <= f_top_R ->
  let k := cos (PI / IZR sides) in
  let z := solve_z (f_bot_R * k) (f_top_R * k) c_r in
  exists p,
    update_plot f_bot_R f_top_R c_r sides = inr p /\
    feedback p =
    (if in_shade z
     then Covered z (2 * f_top_R * sin (PI / IZR sides))
                    (2 * f_bot_R * sin (PI / IZR sides))
                    (sqrt ((f_top_R * k - f_bot_R * k) ^ 2 + f_h ^ 2))
     else NoSideIntersection).
Proof.
  intros Hs Hb Ht k z.
  rewrite update_plot_eq by lia. cbv zeta. fold k z.
  eexists. split; [reflexivity|]. cbn [feedback].
  destruct (in_shade z); [|reflexivity].
  rewrite !inradius_of_edge by assumption.
  rewrite !first_edge_eq by (lia || assumption).
  rewrite dist_same_phase. fold k.
  rewrite Rminus_0_r. reflexivity.
Qed.

(** X9. For [sides >= 3] and positive circumradii, whenever the numeric
    report is shown its three lengths are: top edge
    [2 * f_top_R * sin (pi / sides)], bottom edge
    [2 * f_bot_R * sin (pi / sides)], and slant length the square root of
    [(r_top - r_bot)^2 + f_h^2] with the two apothems; the reported height
    is the value of [z_int] and lies in [[0, f_h]]. *)
Theorem report_lengths (f_bot_R f_top_R c_r : R) (sides : Z) :
  (3 <= sides)%Z -> 0 < f_bot_R -> 0 < f_top_R ->
  let r_bot := f_bot_R * cos (PI / IZR sides) in
  let r_top := f_top_R * cos (PI / IZR sides) in
  exists p,
    update_plot f_bot_R f_top_R c_r sides = inr p /\
    forall z v_top_len v_bot_len m_len,
      feedback p = Covered z v_top_len v_bot_len m_len ->
      z_int f_bot_R f_top_R c_r sides = inr z /\
      0 <= z <= f_h /\
      v_top_len = 2 * f_top_R * sin (PI / IZR sides) /\
      v_bot_len = 2 * f_bot_R * sin (PI / IZR sides) /\
      m_len = sqrt ((r_top - r_bot) ^ 2 + f_h ^ 2).
Proof.
  intros Hs Hb Ht r_bot r_top.
  destruct (update_plot_title f_bot_R f_top_R c_r sides Hs) as (p & Hup & Hfb);
    [lra|lra|].
  cbv zeta in Hfb. fold r_bot r_top in Hfb.
  exists p. split; [exact Hup|].
  intros z vt vb m Hcov. rewrite Hfb in Hcov.
  destruct (in_shade (solve_z r_bot r_top c_r)) eqn:Hin; [|discriminate].
  injection Hcov as Hz Hvt Hvb Hm.
  apply in_shade_true in Hin. rewrite Hz in Hin.
  split; [rewrite z_int_eq by lia; fold r_bot r_top; f_equal; exact Hz|].
  split; [exact Hin|].
  repeat split; symmetry; assumption.
Qed.

Lemma report_lengths_witness :
  let r_bot := 4 * cos (PI / 5) in
  let r_top := 1 * cos (PI / 5) in
  exists p,
    update_plot 4 1 2 5 = inr p /\
    forall z v_top_len v_bot_len m_len,
      feedback p = Covered z v_top_len v_bot_len m_len ->
      z_int 4 1 2 5 = inr z /\
      0 <= z <= f_h /\
      v_top_len = 2 * 1 * sin (PI / 5) /\
      v_bot_len = 2 * 4 * sin (PI / 5) /\
      m_len = sqrt ((r_top - r_bot) ^ 2 + f_h ^ 2).
Proof.
  apply (report_lengths 4 1 2 5); [lia|lra|lra].
Defined.

(** X10. For [sides >= 3] and positive circumradii, the slant length in any
    numeric report is strictly greater than the height [f_h] of the shade,
    and of the two edge lengths the larger belongs to the larger
    circumradius. *)
Theorem report_slant_exceeds_height (f_bot_R f_top_R c_r : R) (sides : Z) :
  (3 <= sides)%Z -> 0 < f_bot_R -> 0 < f_top_R ->
  exists p,
    update_plot f_bot_R f_top_R c_r sides = inr p /\
    forall z v_top_len v_bot_len m_len,
      feedback p = Covered z v_top_len v_bot_len m_len ->
      f_h < m_len /\
      0 < v_top_len /\ 0 < v_bot_len /\
      (v_top_len < v_bot_len <-> f_top_R < f_bot_R).
Proof.
  intros Hs Hb Ht.
  destruct (update_plot_title f_bot_R f_top_R c_r sides Hs) as (p & Hup & Hfb);
    [lra|lra|].
  cbv zeta in Hfb.
  set (r_bot := f_bot_R * cos (PI / IZR sides)) in *.
  set (r_top := f_top_R * cos (PI / IZR sides)) in *.
  exists p. split; [exact Hup|].
  intros z vt vb m Hcov. rewrite Hfb in Hcov.
  destruct (in_shade (solve_z r_bot r_top c_r)) eqn:Hin; [|discriminate].
  injection Hcov as _ Hvt Hvb Hm.
  apply in_shade_solve_z in Hin. destruct Hin as [Htaper _].
  pose proof (sin_PI_over_pos sides ltac:(lia)) as Hsin.
  subst vt vb m.
  split.
  - assert (Hd : r_top - r_bot <> 0)
      by (intros E; rewrite E, Rabs_R0 in Htaper; lra).
    assert (Hsq : 0 < (r_top - r_bot) ^ 2).
    { simpl. rewrite Rmult_1_r.
      destruct (Rtotal_order (r_top - r_bot) 0) as [H|[H|H]];
        [nra|contradiction|nra]. }
    rewrite <- (sqrt_pow2 f_h) at 1 by (unfold f_h; lra).
    apply sqrt_lt_1.
    + simpl. unfold f_h. lra.
    + simpl in *. unfold f_h. nra.
    + lra.
  - split; [nra|]. split; [nra|]. split; intros H; nra.
Qed.

Lemma report_slant_exceeds_height_witness :
  exists p,
    update_plot 4 1 2 5 = inr p /\
    forall z v_top_len v_bot_len m_len,
      feedback p = Covered z v_top_len v_bot_len m_len ->
      f_h < m_len /\
      0 < v_top_len /\ 0 < v_bot_len /\
      (v_top_len < v_bot_len <-> 1 < 4).
Proof.
  apply (report_slant_exceeds_height 4 1 2 5); [lia|lra|lra].
Defined.

(** ** What is drawn *)

Lemma dist_axis (c a h : R) :
  dist (mkPoint (c * cos a) (c * sin a) h) (mkPoint 0 0 h) = Rabs c.
Proof.
  replace (mkPoint 0 0 h) with (mkPoint (0 * cos a) (0 * sin a) h)
    by (f_equal; ring).
  rewrite dist_same_phase.
  replace ((c - 0) ^ 2 + (h - h) ^ 2) with (Rsqr c) by (unfold Rsqr; ring).
  apply sqrt_Rsqr_abs.
Qed.

(** X11. For [sides >= 2]: points are scattered exactly when the numeric
    report is shown; there are then [sides] of them, all at the reported
    height and at distance [|c_r|] from the axis, that is, on the
    cylinder. *)
Theorem scatter_on_cylinder (f_bot_R f_top_R c_r : R) (sides : Z) :
  (2 <= sides)%Z ->
  exists p,
    update_plot f_bot_R f_top_R c_r sides = inr p /\
    (feedback p = NoSideIntersection <-> scatter p = None) /\
    forall z v_top_len v_bot_len m_len,
      feedback p = Covered z v_top_len v_bot_len m_len ->
      exists pts,
        scatter p = Some pts /\
        length pts = Z.to_nat sides /\
        Forall (fun q => pz q = z /\ dist q (mkPoint 0 0 z) = Rabs c_r) pts.
Proof.
  intros Hs.
  rewrite update_plot_eq by exact Hs. cbv zeta.
  set (z0 := solve_z _ _ c_r).
  eexists. split; [reflexivity|]. cbn [feedback scatter].
  destruct (in_shade z0).
  - split; [split; discriminate|].
    intros z vt vb m Hcov. injection Hcov as <- _ _ _.
    eexists. split; [reflexivity|].
    split; [rewrite length_map; apply length_range|].
    apply Forall_forall. intros q Hq.
    apply in_map_iff in Hq. destruct Hq as (i & <- & _).
    cbn [pz]. split; [reflexivity|]. apply dist_axis.
  - split; [split; reflexivity|].
    intros z vt vb m Hcov. discriminate.
Qed.

Lemma scatter_on_cylinder_witness :
  exists p,
    update_plot 4 1 2 5 = inr p /\
    (feedback p = NoSideIntersection <-> scatter p = None) /\
    forall z v_top_len v_bot_len m_len,
      feedback p = Covered z v_top_len v_bot_len m_len ->
      exists pts,
        scatter p = Some pts /\
        length pts = Z.to_nat 5 /\
        Forall (fun q => pz q = z /\ dist q (mkPoint 0 0 z) = Rabs 2) pts.
Proof.
  apply (scatter_on_cylinder 4 1 2 5). lia.
Defined.

(** X12. For [sides >= 2] the dynamic part of the cylinder is drawn on 20
    heights that start at 0, end at a top with [0 < top <= f_h] and all lie
    between the two. The top is [z_int] when [0 < z_int <= f_h], it is
    [f_h] when [z_int] is above the shade, and it is the stub height 0.01
    when [z_int <= 0], which includes a reported height of exactly 0 and the
    untapered sentinel. *)
Theorem z_dynamic_heights (f_bot_R f_top_R c_r : R) (sides : Z) :
  (2 <= sides)%Z ->
  exists z p top,
    z_int f_bot_R f_top_R c_r sides = inr z /\
    update_plot f_bot_R f_top_R c_r sides = inr p /\
    length (z_dynamic p) = 20%nat /\
    nth_error (z_dynamic p) 0 = Some 0 /\
    nth_error (z_dynamic p) 19 = Some top /\
    0 < top <= f_h /\
    Forall (fun h => 0 <= h <= top) (z_dynamic p) /\
    (0 < z <= f_h -> top = z) /\
    (f_h < z -> top = f_h) /\
    (z <= 0 -> top = 0.01).
Proof.
  intros Hs.
  rewrite z_int_eq, update_plot_eq by lia. cbv zeta.
  set (z := solve_z _ _ c_r).
  set (top := if Rlt_dec 0 z then z_vis z else 0.01).
  assert (Htop : 0 < top <= f_h).
  { unfold top, z_vis, clip, f_h, Rmin, Rmax.
    destruct (Rlt_dec 0 z); [|lra].
    destruct (Rle_dec z 0); destruct (Rle_dec _ 5); lra. }
  exists z. eexists. exists top.
  split; [reflexivity|]. split; [reflexivity|]. cbn [z_dynamic].
  split; [apply length_linspace_samples; lia|].
  split.
  { rewrite nth_linspace_samples by (simpl; lia).
    simpl. f_equal. ring. }
  split.
  { rewrite nth_linspace_samples by (simpl; lia). reflexivity. }
  split; [exact Htop|].
  split.
  { apply Forall_forall. intros h Hh.
    apply In_nth_error in Hh. destruct Hh as [i Hi].
    apply (linspace_samples_between 0 top 20 i h); [lia|lra|exact Hi]. }
  unfold top, z_vis, clip, f_h, Rmin, Rmax.
  repeat split; intros Hz;
    destruct (Rlt_dec 0 z); try lra;
    destruct (Rle_dec z 0); destruct (Rle_dec _ 5); lra.
Qed.

Lemma z_dynamic_heights_witness :
  exists z p top,
    z_int 4 1 2 5 = inr z /\
    update_plot 4 1 2 5 = inr p /\
    length (z_dynamic p) = 20%nat /\
    nth_error (z_dynamic p) 0 = Some 0 /\
    nth_error (z_dynamic p) 19 = Some top /\
    0 < top <= f_h /\
    Forall (fun h => 0 <= h <= top) (z_dynamic p) /\
    (0 < z <= f_h -> top = z) /\
    (f_h < z -> top = f_h) /\
    (z <= 0 -> top = 0.01).
Proof.
  apply (z_dynamic_heights 4 1 2 5). lia.
Defined.

(** X13. For [sides >= 3] and positive circumradii the plot has [sides + 2]
    faces: the two rings and then one panel per side. Panel [i] has two
    corners at height 0 and two at height [f_h], its two slanted edges have
    the same length, and whenever the numeric report is shown its bottom
    edge, its top edge and the distance between the middles of these two
    edges are the three lengths of the report. *)
Theorem panels_match_report (f_bot_R f_top_R c_r : R) (sides : Z) :
  (3 <= sides)%Z -> 0 < f_bot_R -> 0 < f_top_R ->
  exists p,
    update_plot f_bot_R f_top_R c_r sides = inr p /\
    length (faces p) = (Z.to_nat sides + 2)%nat /\
    forall i, (i < Z.to_nat sides)%nat ->
      exists a b c d,
        nth_error (faces p) (2 + i) = Some [a; b; c; d] /\
        pz a = 0 /\ pz b = 0 /\ pz c = f_h /\ pz d = f_h /\
        dist a d = dist b c /\
        forall z v_top_len v_bot_len m_len,
          feedback p = Covered z v_top_len v_bot_len m_len ->
          dist a b = v_bot_len /\
          dist d c = v_top_len /\
          dist (midpoint a b) (midpoint d c) = m_len.
Proof.
  intros Hs Hb Ht.
  rewrite update_plot_eq by lia. cbv zeta.
  set (z0 := solve_z _ _ c_r).
  eexists. split; [reflexivity|]. cbn [faces feedback].
  split.
  { rewrite length_app, length_map, length_range. simpl. lia. }
  intros i Hi.
  assert (Hj : ((i + 1) mod Z.to_nat sides < Z.to_nat sides)%nat)
    by (apply Nat.mod_upper_bound; lia).
  eexists _, _, _, _.
  split.
  { rewrite nth_error_app2 by (simpl; lia).
    replace (2 + i - length [_; _])%nat with i by (simpl; lia).
    rewrite nth_error_map, nth_error_range by exact Hi.
    reflexivity. }
  cbn [pz].
  split; [reflexivity|]. split; [reflexivity|].
  split; [reflexivity|]. split; [reflexivity|].
  split.
  { rewrite !dist_same_phase. reflexivity. }
  intros z vt vb m Hcov.
  destruct (in_shade z0); [|discriminate].
  injection Hcov as _ <- <- <-.
  rewrite !inradius_of_edge by (lia || lra).
  rewrite !first_edge_eq by (lia || lra).
  split; [apply ring_step_dist; [lia|lra|exact Hi]|].
  split; [apply ring_step_dist; [lia|lra|exact Hi]|].
  rewrite !edge_midpoint by (lia || exact Hi).
  rewrite !dist_same_phase. f_equal. ring.
Qed.

Lemma panels_match_report_witness :
  exists p,
    update_plot 4 1 2 5 = inr p /\
    length (faces p) = (Z.to_nat 5 + 2)%nat /\
    forall i, (i < Z.to_nat 5)%nat ->
      exists a b c d,
        nth_error (faces p) (2 + i) = Some [a; b; c; d] /\
        pz a = 0 /\ pz b = 0 /\ pz c = f_h /\ pz d = f_h /\
        dist a d = dist b c /\
        forall z v_top_len v_bot_len m_len,
          feedback p = Covered z v_top_len v_bot_len m_len ->
          dist a b = v_bot_len /\
          dist d c = v_top_len /\
          dist (midpoint a b) (midpoint d c) = m_len.
Proof.
  apply (panels_match_report 4 1 2 5); [lia|lra|lra].
Defined.

(** ** Side counts below the intended ones *)

Lemma ring_angles_nonpositive (sides : Z) :
  (sides <= 0)%Z ->
  ring_angles sides = if (sides <? -1)%Z then inl ValueError else inr [].
Proof.
  intros Hs. unfold ring_angles, linspace.
  destruct (Z.ltb_spec sides (-1)) as [Hlt|Hge].
  - destruct (Z.ltb_spec (sides + 1) 0) as [_|H]; [reflexivity|lia].
  - destruct (Z.ltb_spec (sides + 1) 0) as [H|_]; [lia|].
    assert (E : sides = (-1)%Z \/ sides = 0%Z) by lia.
    destruct E as [-> | ->]; reflexivity.
Qed.

Lemma generators_nonpositive_sides_aux (radius z : R) (sides : Z) :
  (sides <= 0)%Z ->
  get_face_vertices radius z sides
    = (if (sides <? -1)%Z then inl ValueError else inr []).
Proof.
  intros Hs. unfold get_face_vertices.
  rewrite ring_angles_nonpositive by exact Hs.
  destruct (sides <? -1)%Z; reflexivity.
Qed.

(** X14. For a side count of 0 or below both ring generators behave alike:
    they raise [ValueError] (from [np.linspace]) when [sides < -1], and
    return an empty array for [sides = -1] and [sides = 0]; no point is ever
    produced. *)
Theorem generators_nonpositive_sides (radius z : R) (sides : Z) :
  (sides <= 0)%Z ->
  get_face_vertices radius z sides
    = (if (sides <? -1)%Z then inl ValueError else inr []) /\
  get_face_midpoints radius z sides
    = (if (sides <? -1)%Z then inl ValueError else inr []).
Proof.
  intros Hs. unfold get_face_vertices, get_face_midpoints.
  rewrite ring_angles_nonpositive by exact Hs.
  destruct (sides <? -1)%Z; split; reflexivity.
Qed.

Lemma generators_nonpositive_sides_witness :
  get_face_vertices 4 0 (-3)
    = (if (-3 <? -1)%Z then inl ValueError else inr []) /\
  get_face_midpoints 4 0 (-3)
    = (if (-3 <? -1)%Z then inl ValueError else inr []).
Proof.
  apply (generators_nonpositive_sides 4 0 (-3)). lia.
Defined.

(** X15. With fewer than two sides [update_plot] never completes: it stops
    on an exception whatever the radii. For [sides = 0] this is the
    [ZeroDivisionError] of [180 / sides], for [sides < -1] the [ValueError]
    of [np.linspace]. *)
Theorem update_plot_below_two_sides (f_bot_R f_top_R c_r : R) (sides : Z) :
  (sides < 2)%Z ->
  exists e,
    update_plot f_bot_R f_top_R c_r sides = inl e /\
    (sides = 0%Z -> e = ZeroDivisionError) /\
    (sides < -1 -> e = ValueError)%Z.
Proof.
  intros Hs.
  destruct (Z.eq_dec sides 0) as [-> | Hne].
  - exists ZeroDivisionError. split; [reflexivity|].
    split; [reflexivity|lia].
  - destruct (Z.eq_dec sides 1) as [-> | Hne1].
    + exists IndexError. split; [apply update_plot_one_side|].
      split; intros H; lia.
    + assert (Hneg : (sides <= 0)%Z) by lia.
      pose proof (generators_nonpositive_sides_aux f_bot_R 0 sides Hneg)
        as Hv.
      unfold update_plot. rewrite z_int_eq by exact Hne. cbn [bind].
      rewrite Hv.
      destruct (Z.ltb_spec sides (-1)) as [Hlt|Hge].
      * exists ValueError. split; [reflexivity|].
        split; [intros H; lia|reflexivity].
      * assert (E : sides = (-1)%Z) by lia. subst sides.
        exists IndexError. split; [|split; intros H; lia].
        cbn [bind].
        rewrite (generators_nonpositive_sides_aux f_top_R f_h (-1) Hneg).
        reflexivity.
Qed.

Lemma update_plot_below_two_sides_witness :
  exists e,
    update_plot 4 1 2 0 = inl e /\
    (0%Z = 0%Z -> e = ZeroDivisionError) /\
    (0 < -1 -> e = ValueError)%Z.
Proof.
  apply (update_plot_below_two_sides 4 1 2 0). lia.
Defined.

(** ** The cylinder surface *)

Lemma nth_error_zip_with {A B C : Type} (f : A -> B -> C)
  (a : list A) (b : list B) (i : nat) (x : A) (y : B) :
  nth_error a i = Some x -> nth_error b i = Some y ->
  nth_error (zip_with f a b) i = Some (f x y).
Proof.
  unfold zip_with. revert b i.
  induction a as [|a0 a IH]; intros b i Ha Hb.
  - destruct i; discriminate.
  - destruct b as [|b0 b]; [destruct i; discriminate|].
    destruct i as [|i]; simpl in *.
    + injection Ha as <-. injection Hb as <-. reflexivity.
    + apply IH; assumption.
Qed.

Lemma length_zip_with {A B C : Type} (f : A -> B -> C)
  (a : list A) (b : list B) :
  length (zip_with f a b) = Nat.min (length a) (length b).
Proof.
  unfold zip_with. rewrite length_map. apply length_combine.
Qed.

Lemma nth_error_r_total (c_r : R) (i : nat) :
  (i < 30)%nat ->
  nth_error (repeat 1 10 ++ repeat c_r 20) i
  = Some (if (i <? 10)%nat then 1 else c_r).
Proof.
  intros Hi.
  destruct (Nat.ltb_spec i 10) as [Hlt|Hge].
  - rewrite nth_error_app1 by (rewrite repeat_length; exact Hlt).
    apply nth_error_repeat. exact Hlt.
  - rewrite nth_error_app2 by (rewrite repeat_length; exact Hge).
    rewrite repeat_length. apply nth_error_repeat. lia.
Qed.

Lemma nth_error_z_total (top : R) (i : nat) :
  0 <= top -> (i < 30)%nat ->
  exists h,
    nth_error (linspace_samples (-2) 0 10 ++ linspace_samples 0 top 20) i
    = Some h /\
    (if (i <? 10)%nat then -2 <= h <= 0 else 0 <= h <= top).
Proof.
  intros Htop Hi.
  destruct (Nat.ltb_spec i 10) as [Hlt|Hge].
  - rewrite nth_error_app1 by (rewrite length_linspace_samples; simpl; lia).
    destruct (nth_error (linspace_samples (-2) 0 10) i) as [h|] eqn:E.
    + exists h. split; [reflexivity|].
      apply (linspace_samples_between (-2) 0 10 i h); [lia|lra|exact E].
    + apply nth_error_None in E.
      rewrite length_linspace_samples in E by lia. simpl in E. lia.
  - rewrite nth_error_app2 by (rewrite length_linspace_samples; simpl; lia).
    rewrite length_linspace_samples by lia.
    destruct (nth_error (linspace_samples 0 top 20) (i - Z.to_nat 10))
      as [h|] eqn:E.
    + exists h. split; [reflexivity|].
      apply (linspace_samples_between 0 top 20 (i - Z.to_nat 10) h);
        [lia|lra|exact E].
    + apply nth_error_None in E.
      rewrite length_linspace_samples in E by lia. simpl in E. lia.
Qed.

Lemma nth_error_theta (j : nat) :
  (j < 40)%nat ->
  exists t, nth_error (linspace_samples 0 (2 * PI) 40) j = Some t.
Proof.
  intros Hj. rewrite nth_linspace_samples by (simpl; lia).
  eexists. reflexivity.
Qed.

Lemma theta_ends :
  nth_error (linspace_samples 0 (2 * PI) 40) 0 = Some 0 /\
  nth_error (linspace_samples 0 (2 * PI) 40) 39 = Some (2 * PI).
Proof.
  split.
  - rewrite nth_linspace_samples by (simpl; lia). simpl. f_equal. ring.
  - rewrite nth_linspace_samples by (simpl; lia). reflexivity.
Qed.

(** One entry of the grid [R_grid * f(T)]. *)
Lemma at2_surface (f : R -> R) (r_total z_total theta : list R)
  (i j : nat) (r t : R) :
  length z_total = length r_total ->
  nth_error r_total i = Some r ->
  nth_error theta j = Some t ->
  length theta = 40%nat ->
  at2 (mul2d (tile_T r_total 40) (map2d f (fst (meshgrid theta z_total))))
      i j
  = Some (r * f t).
Proof.
  intros Hlen Hr Ht H40. unfold at2, mul2d, meshgrid, map2d, tile_T.
  cbn [fst].
  assert (Hz : exists h, nth_error z_total i = Some h).
  { destruct (nth_error z_total i) as [h|] eqn:E; [exists h; reflexivity|].
    apply nth_error_None in E.
    assert (Hi : (i < length r_total)%nat)
      by (apply nth_error_Some; rewrite Hr; discriminate).
    lia. }
  destruct Hz as [h Hh].
  rewrite (nth_error_zip_with (zip_with Rmult) _ _ i
             (repeat r 40) (map f theta)).
  - apply nth_error_zip_with.
    + apply nth_error_repeat.
      rewrite <- H40. apply nth_error_Some. rewrite Ht. discriminate.
    + rewrite nth_error_map, Ht. reflexivity.
  - rewrite nth_error_map, Hr. reflexivity.
  - rewrite !nth_error_map, Hh. reflexivity.
Qed.

(** X16. The surface handed to [ax.plot_surface] is a grid of 30 rows of
    40 points, whatever the cylinder radius and the value of [z_int]. The
    first 10 rows lie on the cylinder of radius 1 at heights in [[-2, 0]]
    (the stem); the other 20 rows lie on the cylinder of radius [c_r] at
    heights in [[0, f_h]] (the glass). Each row closes: its last point is
    its first point. *)
Theorem cylinder_surface_shape (c_r z : R) :
  exists X Y Zg,
    cylinder_surface c_r z = inr (X, Y, Zg) /\
    length X = 30%nat /\ length Y = 30%nat /\ length Zg = 30%nat /\
    forall i j, (i < 30)%nat -> (j < 40)%nat ->
      exists x y h,
        at2 X i j = Some x /\ at2 Y i j = Some y /\ at2 Zg i j = Some h /\
        x ^ 2 + y ^ 2 = (if (i <? 10)%nat then 1 else c_r ^ 2) /\
        (if (i <? 10)%nat then -2 <= h <= 0 else 0 <= h <= f_h) /\
        at2 X i 39 = at2 X i 0 /\ at2 Y i 39 = at2 Y i 0.
Proof.
  unfold cylinder_surface.
  rewrite !linspace_eq by lia. cbn [bind]. unfold ret.
  set (top := if Rlt_dec 0 z then z_vis z else 0.01).
  assert (Htop : 0 <= top <= f_h).
  { unfold top. destruct (Rlt_dec 0 z); [apply z_vis_bounds|].
    unfold f_h. lra. }
  set (z_total := linspace_samples (-2) 0 10 ++ linspace_samples 0 top 20).
  set (r_total := repeat 1 10 ++ repeat c_r 20).
  set (theta := linspace_samples 0 (2 * PI) 40).
  assert (Hlz : length z_total = 30%nat).
  { unfold z_total.
    rewrite length_app, !length_linspace_samples by lia. reflexivity. }
  assert (Hlr : length r_total = 30%nat).
  { unfold r_total. rewrite length_app, !repeat_length. reflexivity. }
  assert (Hlt : length theta = 40%nat)
    by (unfold theta; rewrite length_linspace_samples by lia; reflexivity).
  eexists _, _, _. split; [reflexivity|].
  split.
  { unfold mul2d, tile_T, map2d, meshgrid. cbn [fst].
    rewrite length_zip_with, !length_map, Hlz, Hlr. reflexivity. }
  split.
  { unfold mul2d, tile_T, map2d, meshgrid. cbn [fst].
    rewrite length_zip_with, !length_map, Hlz, Hlr. reflexivity. }
  split.
  { unfold meshgrid. cbn [snd]. rewrite length_map. exact Hlz. }
  intros i j Hi Hj.
  pose proof (nth_error_r_total c_r i Hi) as Hr. fold r_total in Hr.
  destruct (nth_error_theta j Hj) as [t Ht]. fold theta in Ht.
  destruct theta_ends as [Ht0 Ht39]. fold theta in Ht0, Ht39.
  destruct (nth_error_z_total top i (proj1 Htop) Hi) as (h & Hh & Hrange).
  fold z_total in Hh.
  assert (Hlen : length z_total = length r_total) by congruence.
  set (r := if (i <? 10)%nat then 1 else c_r) in *.
  exists (r * cos t), (r * sin t), h.
  split; [apply at2_surface; assumption|].
  split; [apply at2_surface; assumption|].
  split.
  { unfold at2, meshgrid. cbn [snd].
    rewrite nth_error_map, Hh. cbn [option_map].
    rewrite nth_error_map, Ht. reflexivity. }
  split.
  { pose proof (sin2_cos2 t) as Hsc. unfold Rsqr in Hsc.
    transitivity (r ^ 2 * (sin t * sin t + cos t * cos t)); [ring|].
    rewrite Hsc. unfold r. destruct (i <? 10)%nat; ring. }
  split.
  { destruct (i <? 10)%nat; lra. }
  split.
  - rewrite (at2_surface cos r_total z_total theta i 39 r (2 * PI))
      by assumption.
    rewrite (at2_surface cos r_total z_total theta i 0 r 0) by assumption.
    rewrite cos_2PI, cos_0. reflexivity.
  - rewrite (at2_surface sin r_total z_total theta i 39 r (2 * PI))
      by assumption.
    rewrite (at2_surface sin r_total z_total theta i 0 r 0) by assumption.
    rewrite sin_2PI, sin_0. reflexivity.
Qed.
